(** * ai-homework-marker: the OCR pipeline of [backend/ocr_pipeline.py]

    A shallow embedding of [_client], [_image_to_data_url] and
    [extract_qa_from_image], together with the parts of the Python runtime
    those functions rely on ([str.strip], [str()], [dict.get],
    [base64.b64encode], [json.loads]), followed by the properties the
    design document states about them.

    Python strings are sequences of Unicode code points; they are modelled
    as lists of integers.  Interpreter resource limits (recursion depth,
    the digit limit of integer conversion) are outside the model. *)

From Stdlib Require Import List NArith ZArith Bool Lia String Ascii.
From Stdlib.Strings Require Import Byte.
From Stdlib Require Import DecimalString.
Import ListNotations.

Local Open Scope Z_scope.
Set Warnings "-register-all".

(* ================================================================== *)
(** ** Text *)

Module Text.

(** A Python [str]: a list of code points. *)
Definition pystr : Type := list Z.

(** An ASCII literal of the development read as a Python string. *)
Definition lit (s : string) : pystr :=
  map (fun a => Z.of_N (N_of_ascii a)) (list_ascii_of_string s).

(** The same, with every backquote standing for a double quote, so that
    JSON text and the prompt can be written down readably. *)
Definition qlit (s : string) : pystr :=
  map (fun c => if c =? 96 then 34 else c) (lit s).

Fixpoint str_eqb (a b : pystr) : bool :=
  match a, b with
  | [], [] => true
  | x :: a', y :: b' => (x =? y) && str_eqb a' b'
  | _, _ => false
  end.

(** [str.isspace] on one code point (CPython's [_PyUnicode_IsWhitespace]). *)
Definition isspace (c : Z) : bool :=
  ((9 <=? c) && (c <=? 13)) || ((28 <=? c) && (c <=? 32))
  || (c =? 133) || (c =? 160) || (c =? 5760)
  || ((8192 <=? c) && (c <=? 8202))
  || (c =? 8232) || (c =? 8233) || (c =? 8239) || (c =? 8287)
  || (c =? 12288).

Fixpoint lstrip (s : pystr) : pystr :=
  match s with
  | [] => []
  | c :: s' => if isspace c then lstrip s' else s
  end.

Definition rstrip (s : pystr) : pystr := rev (lstrip (rev s)).

(** [s.strip()] *)
Definition strip (s : pystr) : pystr := rstrip (lstrip s).

Definition starts_clean (s : pystr) : bool :=
  match s with
  | [] => true
  | c :: _ => negb (isspace c)
  end.

(** A string that neither starts nor ends with whitespace. *)
Definition trimmed (s : pystr) : bool :=
  starts_clean s && starts_clean (rev s).

(** [sep.join(parts)] *)
Fixpoint join (sep : pystr) (parts : list pystr) : pystr :=
  match parts with
  | [] => []
  | [p] => p
  | p :: rest => p ++ sep ++ join sep rest
  end.

(** [n] lowercase hexadecimal digits of [v], most significant first. *)
Fixpoint hex_digits (n : nat) (v : Z) : pystr :=
  match n with
  | O => []
  | S n' =>
      let d := v mod 16 in
      hex_digits n' (v / 16) ++ [if d <? 10 then 48 + d else 87 + d]
  end.

End Text.
Export Text.

(* ================================================================== *)
(** ** Python values *)

Module Values.

(** The values [json.loads] can return.  A [float] is kept as the number
    literal it was read from: the double it denotes, and hence its [str()],
    is a function of that literal. *)
Inductive pyval : Type :=
| PNone
| PBool (b : bool)
| PInt (z : Z)
| PFloat (literal : pystr)
| PStr (s : pystr)
| PList (items : list pyval)
| PDict (d : list (pystr * pyval)).

(** A [dict] with [str] keys: insertion-ordered, keys unique. *)
Definition dict : Type := list (pystr * pyval).

(** [d.get(k)], [None] when the key is absent. *)
Fixpoint dict_lookup (d : dict) (k : pystr) : option pyval :=
  match d with
  | [] => None
  | (k', v) :: d' => if str_eqb k' k then Some v else dict_lookup d' k
  end.

(** [d.get(k, default)] *)
Definition dict_get (d : dict) (k : pystr) (default : pyval) : pyval :=
  match dict_lookup d k with
  | Some v => v
  | None => default
  end.

(** [d[k] = v]: an existing key keeps its position. *)
Fixpoint dict_set (d : dict) (k : pystr) (v : pyval) : dict :=
  match d with
  | [] => [(k, v)]
  | (k', v') :: d' =>
      if str_eqb k' k then (k', v) :: d' else (k', v') :: dict_set d' k v
  end.

Definition is_list (v : pyval) : bool :=
  match v with PList _ => true | _ => false end.

Definition is_dict (v : pyval) : bool :=
  match v with PDict _ => true | _ => false end.

(** What the interpreter supplies and the embedding does not compute:
    the shortest round-tripping rendering of the double nearest to a
    number literal, and the Unicode database's printable property of a
    code point above ASCII. *)
Class Interp : Type := {
  float_str : pystr -> pystr;
  isprintable : Z -> bool
}.

Section Repr.
Context {I : Interp}.

(** [repr] of one character of a string quoted with [quote]. *)
Definition repr_char (quote c : Z) : pystr :=
  if (c =? quote) || (c =? 92) then [92; c]
  else if c =? 9 then lit "\t"
  else if c =? 10 then lit "\n"
  else if c =? 13 then lit "\r"
  else if (c <? 32) || (c =? 127) then lit "\x" ++ hex_digits 2 c
  else if c <? 127 then [c]
  else if isprintable c then [c]
  else if c <=? 255 then lit "\x" ++ hex_digits 2 c
  else if c <=? 65535 then lit "\u" ++ hex_digits 4 c
  else lit "\U" ++ hex_digits 8 c.

Definition contains (c : Z) (s : pystr) : bool := existsb (Z.eqb c) s.

(** [repr(s)] for a [str]: single quotes unless the text holds a single
    quote and no double quote. *)
Definition str_repr (s : pystr) : pystr :=
  let quote := if contains 39 s && negb (contains 34 s) then 34 else 39 in
  [quote] ++ flat_map (repr_char quote) s ++ [quote].

Definition int_repr (z : Z) : pystr :=
  lit (NilZero.string_of_int (Z.to_int z)).

Definition float_repr (literal : pystr) : pystr :=
  if str_eqb literal (lit "NaN") then lit "nan"
  else if str_eqb literal (lit "Infinity") then lit "inf"
  else if str_eqb literal (lit "-Infinity") then lit "-inf"
  else float_str literal.

(** [repr(v)] *)
Fixpoint py_repr (v : pyval) : pystr :=
  match v with
  | PNone => lit "None"
  | PBool true => lit "True"
  | PBool false => lit "False"
  | PInt z => int_repr z
  | PFloat l => float_repr l
  | PStr s => str_repr s
  | PList l => lit "[" ++ join (lit ", ") (map py_repr l) ++ lit "]"
  | PDict d =>
      lit "{"
      ++ join (lit ", ")
           (map (fun kv => str_repr (fst kv) ++ lit ": " ++ py_repr (snd kv)) d)
      ++ lit "}"
  end.

(** [str(v)]: the text itself for a [str], [repr(v)] otherwise. *)
Definition py_str (v : pyval) : pystr :=
  match v with
  | PStr s => s
  | _ => py_repr v
  end.

End Repr.

End Values.
Export Values.

(* ================================================================== *)
(** ** Base64 *)

Module Base64.

Local Open Scope N_scope.

(** The alphabet of RFC 4648, section 4, which [base64.b64encode] uses. *)
Definition alphabet : list byte :=
  list_byte_of_string
    "ABCDEFGHIJKLMNOPQRSTUVWXYZabcdefghijklmnopqrstuvwxyz0123456789+/".

Definition pad : byte := x3d.

(** The character of a 6-bit group. *)
Definition sextet_char (n : N) : byte := nth (N.to_nat n) alphabet pad.

(** [base64.b64encode(b)]: three bytes become four characters; a last
    group of one or two bytes is padded with [=]. *)
Fixpoint b64encode (bs : list byte) : list byte :=
  match bs with
  | [] => []
  | [x] =>
      let a := Byte.to_N x in
      [sextet_char (a / 4); sextet_char ((a mod 4) * 16); pad; pad]
  | [x; y] =>
      let a := Byte.to_N x in
      let b := Byte.to_N y in
      [sextet_char (a / 4); sextet_char ((a mod 4) * 16 + b / 16);
       sextet_char ((b mod 16) * 4); pad]
  | x :: y :: z :: rest =>
      let a := Byte.to_N x in
      let b := Byte.to_N y in
      let c := Byte.to_N z in
      sextet_char (a / 4) :: sextet_char ((a mod 4) * 16 + b / 16)
      :: sextet_char ((b mod 16) * 4 + c / 64) :: sextet_char (c mod 64)
      :: b64encode rest
  end.

(** [bytes.decode] as UTF-8 on ASCII bytes: each byte is its own code
    point.  [b64encode] yields ASCII only. *)
Definition code (b : byte) : Z := Z.of_N (Byte.to_N b).

Definition decode_ascii (bs : list byte) : pystr := map code bs.

(** The 6-bit group a character of the alphabet stands for. *)
Definition char_sextet (c : Z) : option N :=
  if ((65 <=? c) && (c <=? 90))%Z then Some (Z.to_N (c - 65))
  else if ((97 <=? c) && (c <=? 122))%Z then Some (Z.to_N (c - 71))
  else if ((48 <=? c) && (c <=? 57))%Z then Some (Z.to_N (c + 4))
  else if (c =? 43)%Z then Some 62
  else if (c =? 47)%Z then Some 63
  else None.

Definition byte_of_N (n : N) : byte :=
  match Byte.of_N n with
  | Some b => b
  | None => x00
  end.

(** The strict decoder of RFC 4648: groups of four characters, padding
    only in the last group. *)
Fixpoint b64decode (s : pystr) : option (list byte) :=
  match s with
  | [] => Some []
  | c0 :: c1 :: c2 :: c3 :: rest =>
      match char_sextet c0, char_sextet c1 with
      | Some s0, Some s1 =>
          let x := byte_of_N (s0 * 4 + s1 / 16) in
          match char_sextet c2, char_sextet c3, rest with
          | Some s2, Some s3, _ =>
              match b64decode rest with
              | Some tl =>
                  Some (x :: byte_of_N ((s1 mod 16) * 16 + s2 / 4)
                          :: byte_of_N ((s2 mod 4) * 64 + s3) :: tl)
              | None => None
              end
          | Some s2, None, [] =>
              if ((c3 =? 61)%Z && (s2 mod 4 =? 0))
              then Some [x; byte_of_N ((s1 mod 16) * 16 + s2 / 4)]
              else None
          | None, None, [] =>
              if ((c2 =? 61)%Z && (c3 =? 61)%Z && (s1 mod 16 =? 0))
              then Some [x]
              else None
          | _, _, _ => None
          end
      | _, _ => None
      end
  | _ => None
  end.

End Base64.
Export Base64.

(* ================================================================== *)
(** ** The JSON decoder *)

(** The decoder of the [json] module as a scanner over characters followed
    by a stack machine over tokens.  Both run by structural recursion over
    their input, so the decoder is total: [None] stands for
    [json.JSONDecodeError].  The decoder rejects control characters inside
    strings, joins escaped surrogate pairs, and lets the last of several
    equal keys win.  With [lenient] set it is [json.loads] with its default
    settings, which reads the constants [NaN], [Infinity] and [-Infinity]
    as floats; without, it accepts the grammar of RFC 8259 and nothing
    else. *)

Module Json.

Inductive token : Type :=
| TLBracket | TRBracket | TLBrace | TRBrace | TComma | TColon
| TScalar (v : pyval).

(** Where the scanner stands inside a number literal: an optional minus
    sign, then a zero or a run of digits not starting with zero, then an
    optional fraction (a dot and digits), then an optional exponent (e or
    E, an optional sign, digits). *)
Inductive num_state : Type :=
| NMinus | NZero | NInt | NDot | NFrac | NExpMark | NExpSign | NExp.

(** Scanner states; accumulators hold the characters read, last first.
    [pend] records that the last character of a string so far is a high
    surrogate written as an escape, which a following escaped low
    surrogate completes. *)
Inductive lex_state : Type :=
| LIdle
| LWord (acc : pystr)
| LNum (st : num_state) (acc : pystr)
| LStr (acc : pystr) (pend : bool)
| LEsc (acc : pystr) (pend : bool)
| LUni (acc : pystr) (pend : bool) (n : nat) (v : Z).

Definition is_digit (c : Z) : bool := (48 <=? c) && (c <=? 57).

Definition is_letter (c : Z) : bool :=
  ((65 <=? c) && (c <=? 90)) || ((97 <=? c) && (c <=? 122)).

(** The whitespace of the JSON grammar. *)
Definition is_ws (c : Z) : bool :=
  (c =? 32) || (c =? 9) || (c =? 10) || (c =? 13).

Definition hex_val (c : Z) : option Z :=
  if is_digit c then Some (c - 48)
  else if (97 <=? c) && (c <=? 102) then Some (c - 87)
  else if (65 <=? c) && (c <=? 70) then Some (c - 55)
  else None.

Definition is_constant (w : pystr) : bool :=
  str_eqb w (lit "NaN") || str_eqb w (lit "Infinity")
  || str_eqb w (lit "-Infinity").

Definition word_value (lenient : bool) (w : pystr) : option pyval :=
  if str_eqb w (lit "null") then Some PNone
  else if str_eqb w (lit "true") then Some (PBool true)
  else if str_eqb w (lit "false") then Some (PBool false)
  else if lenient && is_constant w then Some (PFloat w)
  else None.

Definition digits_value (ds : pystr) : Z :=
  fold_left (fun v c => v * 10 + (c - 48)) ds 0.

Definition int_value (s : pystr) : Z :=
  match s with
  | 45 :: ds => - digits_value ds
  | _ => digits_value s
  end.

Definition num_next (st : num_state) (c : Z) : option num_state :=
  let exp_mark := (c =? 101) || (c =? 69) in
  match st with
  | NMinus =>
      if c =? 48 then Some NZero else if is_digit c then Some NInt else None
  | NZero =>
      if c =? 46 then Some NDot else if exp_mark then Some NExpMark else None
  | NInt =>
      if is_digit c then Some NInt
      else if c =? 46 then Some NDot
      else if exp_mark then Some NExpMark else None
  | NDot => if is_digit c then Some NFrac else None
  | NFrac =>
      if is_digit c then Some NFrac
      else if exp_mark then Some NExpMark else None
  | NExpMark =>
      if (c =? 43) || (c =? 45) then Some NExpSign
      else if is_digit c then Some NExp else None
  | NExpSign | NExp => if is_digit c then Some NExp else None
  end.

(** The token a state amounts to when its literal ends here. *)
Definition finish (lenient : bool) (st : lex_state) : option (list token) :=
  match st with
  | LIdle => Some []
  | LWord acc =>
      match word_value lenient (rev acc) with
      | Some v => Some [TScalar v]
      | None => None
      end
  | LNum (NZero | NInt) acc => Some [TScalar (PInt (int_value (rev acc)))]
  | LNum (NFrac | NExp) acc => Some [TScalar (PFloat (rev acc))]
  | _ => None
  end.

Definition idle (c : Z) : option (lex_state * list token) :=
  if is_ws c then Some (LIdle, [])
  else if c =? 91 then Some (LIdle, [TLBracket])
  else if c =? 93 then Some (LIdle, [TRBracket])
  else if c =? 123 then Some (LIdle, [TLBrace])
  else if c =? 125 then Some (LIdle, [TRBrace])
  else if c =? 44 then Some (LIdle, [TComma])
  else if c =? 58 then Some (LIdle, [TColon])
  else if c =? 34 then Some (LStr [] false, [])
  else if c =? 45 then Some (LNum NMinus [c], [])
  else if c =? 48 then Some (LNum NZero [c], [])
  else if is_digit c then Some (LNum NInt [c], [])
  else if is_letter c then Some (LWord [c], [])
  else None.

(** A literal ends before [c]: emit it, then read [c] afresh. *)
Definition close_then (lenient : bool) (st : lex_state) (c : Z)
  : option (lex_state * list token) :=
  match finish lenient st, idle c with
  | Some out, Some (st', out') => Some (st', out ++ out')
  | _, _ => None
  end.

Definition escape_char (c : Z) : option Z :=
  if (c =? 34) || (c =? 92) || (c =? 47) then Some c
  else if c =? 98 then Some 8
  else if c =? 102 then Some 12
  else if c =? 110 then Some 10
  else if c =? 114 then Some 13
  else if c =? 116 then Some 9
  else None.

Definition is_high (v : Z) : bool := (55296 <=? v) && (v <=? 56319).
Definition is_low (v : Z) : bool := (56320 <=? v) && (v <=? 57343).

Definition lex_step (lenient : bool) (st : lex_state) (c : Z)
  : option (lex_state * list token) :=
  match st with
  | LIdle => idle c
  | LWord acc =>
      if is_letter c then Some (LWord (c :: acc), [])
      else close_then lenient st c
  | LNum ns acc =>
      match num_next ns c, ns with
      | Some ns', _ => Some (LNum ns' (c :: acc), [])
      | None, NMinus =>
          if c =? 73 then Some (LWord (c :: acc), []) else None
      | None, _ => close_then lenient st c
      end
  | LStr acc pend =>
      if c =? 34 then Some (LIdle, [TScalar (PStr (rev acc))])
      else if c =? 92 then Some (LEsc acc pend, [])
      else if c <? 32 then None
      else Some (LStr (c :: acc) false, [])
  | LEsc acc pend =>
      if c =? 117 then Some (LUni acc pend 0 0, [])
      else match escape_char c with
           | Some x => Some (LStr (x :: acc) false, [])
           | None => None
           end
  | LUni acc pend n v =>
      match hex_val c with
      | None => None
      | Some h =>
          let v' := v * 16 + h in
          match n with
          | 3%nat =>
              match pend && is_low v', acc with
              | true, hi :: acc' =>
                  Some (LStr (65536 + ((hi - 55296) * 1024 + (v' - 56320))
                                :: acc') false, [])
              | _, _ => Some (LStr (v' :: acc) (is_high v'), [])
              end
          | _ => Some (LUni acc pend (S n) v', [])
          end
      end
  end.

Fixpoint lex (lenient : bool) (st : lex_state) (cs : pystr)
  : option (list token) :=
  match cs with
  | [] => finish lenient st
  | c :: cs' =>
      match lex_step lenient st c with
      | Some (st', out) =>
          match lex lenient st' cs' with
          | Some toks => Some (out ++ toks)
          | None => None
          end
      | None => None
      end
  end.

(** A container under construction. *)
Inductive frame : Type :=
| FList (acc : list pyval)
| FDict (d : dict) (key : option pystr).

(** What the grammar allows next. *)
Inductive expect : Type :=
| XValue | XFirst | XKey | XColon | XSep | XEnd (v : pyval).

Definition pstate : Type := (list frame * expect)%type.

(** A value is complete: hand it to the enclosing container. *)
Definition deliver (v : pyval) (stack : list frame) : option pstate :=
  match stack with
  | [] => Some ([], XEnd v)
  | FList acc :: st => Some (FList (v :: acc) :: st, XSep)
  | FDict d (Some k) :: st => Some (FDict (dict_set d k v) None :: st, XSep)
  | FDict _ None :: _ => None
  end.

Definition wants_value (ps : pstate) : bool :=
  match ps with
  | (_, XValue) | (FList _ :: _, XFirst) => true
  | _ => false
  end.

Definition parse_step (ps : pstate) (t : token) : option pstate :=
  let (stack, x) := ps in
  match t with
  | TScalar v =>
      if wants_value ps then deliver v stack
      else match x, stack, v with
           | (XFirst | XKey), FDict d None :: st, PStr k =>
               Some (FDict d (Some k) :: st, XColon)
           | _, _, _ => None
           end
  | TLBracket =>
      if wants_value ps then Some (FList [] :: stack, XFirst) else None
  | TLBrace =>
      if wants_value ps then Some (FDict [] None :: stack, XFirst) else None
  | TRBracket =>
      match x, stack with
      | (XFirst | XSep), FList acc :: st => deliver (PList (rev acc)) st
      | _, _ => None
      end
  | TRBrace =>
      match x, stack with
      | (XFirst | XSep), FDict d None :: st => deliver (PDict d) st
      | _, _ => None
      end
  | TComma =>
      match x, stack with
      | XSep, FList _ :: _ => Some (stack, XValue)
      | XSep, FDict _ None :: _ => Some (stack, XKey)
      | _, _ => None
      end
  | TColon =>
      match x with
      | XColon => Some (stack, XValue)
      | _ => None
      end
  end.

Fixpoint parse (ps : pstate) (ts : list token) : option pyval :=
  match ts with
  | [] =>
      match ps with
      | ([], XEnd v) => Some v
      | _ => None
      end
  | t :: ts' =>
      match parse_step ps t with
      | Some ps' => parse ps' ts'
      | None => None
      end
  end.

Definition decode (lenient : bool) (s : pystr) : option pyval :=
  match lex lenient LIdle s with
  | Some ts => parse ([], XValue) ts
  | None => None
  end.

(** [json.loads(s)] *)
Definition json_loads (s : pystr) : option pyval := decode true s.

(** Syntactically valid JSON, by the grammar of RFC 8259. *)
Definition valid_json (s : pystr) : bool :=
  match decode false s with
  | Some _ => true
  | None => false
  end.

End Json.
Export Json.

(* ================================================================== *)
(** ** Exceptions, the outside world and the trace of effects *)

Module Effects.

Inductive exn : Type :=
| RuntimeError (msg : pystr)
| OSError
| APIError
| JSONDecodeError (doc : pystr)
| ValueError (msg : pystr).

(** The arguments of [client.responses.create]. *)
Record Request : Type := {
  req_model : pystr;
  req_text : pystr;
  req_image_url : pystr;
  req_max_output_tokens : Z
}.

(** What a run does to the outside, in order. *)
Inductive event : Type :=
| EvRead (path : pystr)
| EvRequest (api_key : pystr) (r : Request)
| EvPrint (text : pystr).

(** What a run finds outside: the process environment, the files that
    can be read, and the model service ([None]: the call raises). *)
Record World : Type := {
  environ : pystr -> option pystr;
  file_bytes : pystr -> option (list byte);
  service : pystr -> Request -> option pystr
}.

Inductive outcome (A : Type) : Type :=
| Return (a : A)
| Raise (e : exn).
Arguments Return {A} a.
Arguments Raise {A} e.

(** A computation: the events it caused and how it ended. *)
Definition io (A : Type) : Type := (list event * outcome A)%type.

Definition ret {A} (a : A) : io A := ([], Return a).
Definition raise {A} (e : exn) : io A := ([], Raise e).
Definition emit (ev : event) : io unit := ([ev], Return tt).

Definition bind {A B} (m : io A) (k : A -> io B) : io B :=
  match m with
  | (tr, Return a) => let (tr', r) := k a in (tr ++ tr', r)
  | (tr, Raise e) => (tr, Raise e)
  end.

Definition trace {A} (m : io A) : list event := fst m.
Definition result {A} (m : io A) : outcome A := snd m.

Definition is_read (ev : event) : bool :=
  match ev with EvRead _ => true | _ => false end.
Definition is_request (ev : event) : bool :=
  match ev with EvRequest _ _ => true | _ => false end.

End Effects.
Export Effects.

Declare Scope io_scope.
Delimit Scope io_scope with io.
Notation "x <- m ;; k" := (bind m (fun x => k))
  (at level 61, m at next level, right associativity) : io_scope.
Notation "m ;; k" := (bind m (fun _ => k))
  (at level 61, right associativity) : io_scope.

(* ================================================================== *)
(** ** The pipeline *)

Module Pipeline.

Local Open Scope io_scope.

Definition VISION_MODEL : pystr := lit "gpt-4.1-mini".

(** [_client()]: the key the client is built with. *)
Definition _client (w : World) : io pystr :=
  match environ w (lit "OPENAI_API_KEY") with
  | None | Some [] => raise (RuntimeError (lit "OPENAI_API_KEY not set"))
  | Some api_key => ret api_key
  end.

(** [open(path, mode rb).read()] *)
Definition read_file (w : World) (path : pystr) : io (list byte) :=
  emit (EvRead path) ;;
  match file_bytes w path with
  | Some b => ret b
  | None => raise OSError
  end.

Definition data_url_prefix : pystr := lit "data:image/jpeg;base64,".

Definition _image_to_data_url (w : World) (path : pystr) : io pystr :=
  b <- read_file w path ;;
  let b64 := decode_ascii (b64encode b) in
  ret (data_url_prefix ++ b64).

Definition prompt : pystr :=
  strip (join [10] [
    [];
    lit "I have a Year 5" ++ [8211] ++ lit "8 maths worksheet in the image.";
    [];
    lit "The page has:";
    lit "- numbered questions";
    lit "- handwritten student answers on the same page";
    [];
    lit "I want a clean JSON list of question/answer pairs.";
    [];
    lit "For each numbered question, extract:";
    qlit "- question_number: like `1`, `2(a)` etc";
    lit "- question_text: full question as normal text";
    lit "- student_answer: student's final answer (even if wrong)";
    lit "- student_working: any visible working/steps";
    [];
    lit "Rules:";
    lit "- Ignore headings, name fields, teacher notes.";
    qlit "- If answer is unreadable -> student_answer = `UNREADABLE`";
    qlit "- If there is clearly no answer -> student_answer = `BLANK`";
    [];
    lit "Output:";
    lit "Return ONLY a JSON array, like:";
    [];
    lit "[";
    lit "  {";
    qlit "    `question_number`: `1`,";
    qlit "    `question_text`: `...`,";
    qlit "    `student_answer`: `...`,";
    qlit "    `student_working`: `...`";
    lit "  }";
    lit "]";
    []
  ]).

(** [client.responses.create(...)] followed by [resp.output_text]. *)
Definition responses_create (w : World) (api_key : pystr) (r : Request)
  : io pystr :=
  emit (EvRequest api_key r) ;;
  match service w api_key r with
  | Some text => ret text
  | None => raise APIError
  end.

Section Parser.
Context {I : Interp}.

(** [str(item.get(key, default)).strip()] with the empty string as the
    default. *)
Definition field (item : dict) (key : pystr) : pystr :=
  strip (py_str (dict_get item key (PStr []))).

Definition is_empty (s : pystr) : bool :=
  match s with [] => true | _ => false end.

Definition K_number : pystr := lit "question_number".
Definition K_text : pystr := lit "question_text".
Definition K_answer : pystr := lit "student_answer".
Definition K_working : pystr := lit "student_working".

(** The dict literal that is appended to [cleaned]. *)
Definition record (qn qtext sans work : pystr) : dict :=
  [(K_number, PStr qn); (K_text, PStr qtext);
   (K_answer, PStr sans); (K_working, PStr work)].

(** One turn of the [for item in data] loop on the list [cleaned]. *)
Definition loop_body (cleaned : list dict) (item : pyval) : list dict :=
  match item with
  | PDict d =>
      let qn := field d K_number in
      let qtext := field d K_text in
      let sans := field d K_answer in
      let work := field d K_working in
      if is_empty qn && is_empty qtext then cleaned
      else cleaned ++ [record qn qtext sans work]
  | _ => cleaned
  end.

Definition parse_failed : pystr :=
  lit "Vision model JSON parse failed. Raw output below:" ++ [10].

(** Lines 80 to 114 of [extract_qa_from_image]: from the model's text to
    the cleaned records. *)
Definition parse_response (output_text : pystr) : io (list dict) :=
  let raw := strip output_text in
  data <- match json_loads raw with
          | Some v => ret v
          | None =>
              emit (EvPrint parse_failed) ;;
              emit (EvPrint raw) ;;
              raise (JSONDecodeError raw)
          end ;;
  match data with
  | PList items => ret (fold_left loop_body items [])
  | _ => raise (ValueError (lit "Expected a JSON array from vision model"))
  end.

Definition extract_qa_from_image (w : World) (image_path : pystr)
  : io (list dict) :=
  client <- _client w ;;
  image_data_url <- _image_to_data_url w image_path ;;
  output_text <- responses_create w client
    {| req_model := VISION_MODEL;
       req_text := prompt;
       req_image_url := image_data_url;
       req_max_output_tokens := 800 |} ;;
  parse_response output_text.

End Parser.

(** *** Vocabulary of the design document *)





(** A cleaned record that identifies its question. *)
Definition has_identifier (rec : dict) : Prop :=
  exists qn qtext,
    dict_lookup rec K_number = Some (PStr qn)
    /\ dict_lookup rec K_text = Some (PStr qtext)
    /\ (qn <> [] \/ qtext <> []).

(** A record of exactly the four fields, each a trimmed string. *)
Definition canonical (rec : dict) : Prop :=
  map fst rec = [K_number; K_text; K_answer; K_working]
  /\ Forall (fun kv => exists s, snd kv = PStr s /\ trimmed s = true) rec.

End Pipeline.
Export Pipeline.

(* ================================================================== *)
(** ** The script entry point *)

(** The block run when the file is executed as a script: it extracts the
    records of the sample worksheet and prints them as indented JSON.
    Writing to the standard output is taken to succeed. *)

Module Script.

Local Open Scope io_scope.



(** What the encoder writes for one character of a string when
    [ensure_ascii] is off: the quote, the backslash and the control
    characters are escaped, everything else is written as it is. *)
Definition escape_out (c : Z) : pystr :=
  if c =? 34 then [92; 34]
  else if c =? 92 then [92; 92]
  else if c =? 8 then lit "\b"
  else if c =? 12 then lit "\f"
  else if c =? 10 then lit "\n"
  else if c =? 13 then lit "\r"
  else if c =? 9 then lit "\t"
  else if c <? 32 then lit "\u" ++ hex_digits 4 c
  else [c].

Definition encode_str (s : pystr) : pystr :=
  [34] ++ flat_map escape_out s ++ [34].

(** A newline followed by the indentation of a nesting level. *)
Definition newline_indent (indent level : nat) : pystr :=
  10 :: repeat 32 (indent * level).

Section Dumps.
Context {I : Interp}.

Definition encode_float (literal : pystr) : pystr :=
  let r := float_repr literal in
  if str_eqb r (lit "nan") then lit "NaN"
  else if str_eqb r (lit "inf") then lit "Infinity"
  else if str_eqb r (lit "-inf") then lit "-Infinity"
  else r.

(** The encoder of [json.dumps] with an indent and [ensure_ascii] off, at
    a nesting level: items are separated by a comma and a new line, keys
    from values by a colon and a space, and an empty container is written
    without a line break. *)
Fixpoint encode (indent level : nat) (v : pyval) : pystr :=
  match v with
  | PNone => lit "null"
  | PBool true => lit "true"
  | PBool false => lit "false"
  | PInt z => int_repr z
  | PFloat l => encode_float l
  | PStr s => encode_str s
  | PList [] => lit "[]"
  | PList l =>
      lit "[" ++ newline_indent indent (S level)
      ++ join (lit "," ++ newline_indent indent (S level))
              (map (encode indent (S level)) l)
      ++ newline_indent indent level ++ lit "]"
  | PDict [] => lit "{}"
  | PDict d =>
      lit "{" ++ newline_indent indent (S level)
      ++ join (lit "," ++ newline_indent indent (S level))
              (map (fun kv => encode_str (fst kv) ++ lit ": "
                              ++ encode indent (S level) (snd kv)) d)
      ++ newline_indent indent level ++ lit "}"
  end.

(** [json.dumps(v, indent=indent, ensure_ascii=False)] *)
Definition json_dumps (indent : nat) (v : pyval) : pystr :=
  encode indent 0 v.



End Dumps.

(** A string of code points: no negative number stands for a character. *)
Definition is_text (s : pystr) : bool := forallb (fun c => 0 <=? c) s.

End Script.
Export Script.

(* ================================================================== *)
(** ** Vocabulary of the further properties *)

Module Observations.

(** The request a run sends for an image of bytes [b]. *)
Definition request_for (b : list byte) : Request :=
  {| req_model := VISION_MODEL;
     req_text := prompt;
     req_image_url := data_url_prefix ++ decode_ascii (b64encode b);
     req_max_output_tokens := 800 |}.

(** A character of the Base64 alphabet, or the padding character. *)
Definition is_b64_char (c : Z) : bool :=
  match char_sextet c with
  | Some _ => true
  | None => c =? 61
  end.

(** A dict whose keys and values are strings of code points. *)
Definition text_record (rec : dict) : bool :=
  forallb (fun kv => is_text (fst kv)
                     && match snd kv with
                        | PStr s => is_text s
                        | _ => false
                        end) rec.

(** The scanner run over a piece of text: the state it is left in and
    the tokens it has emitted. *)
Fixpoint lex_run (lenient : bool) (st : lex_state) (cs : pystr)
  : option (lex_state * list token) :=
  match cs with
  | [] => Some (st, [])
  | c :: cs' =>
      match lex_step lenient st c with
      | Some (st', out) =>
          match lex_run lenient st' cs' with
          | Some (st'', out') => Some (st'', out ++ out')
          | None => None
          end
      | None => None
      end
  end.

(** The stack machine run over some tokens. *)
Fixpoint parse_run (ps : pstate) (ts : list token) : option pstate :=
  match ts with
  | [] => Some ps
  | t :: ts' =>
      match parse_step ps t with
      | Some ps' => parse_run ps' ts'
      | None => None
      end
  end.

(** A piece of text that takes the scanner from one state to another
    while it emits some tokens. *)
Definition scans (st : lex_state) (x : pystr) (st' : lex_state)
    (out : list token) : Prop :=
  forall l, lex_run l st x = Some (st', out).

(** Runs of tokens put together with a separator, as [join] does for
    text. *)
Fixpoint join_tokens (sep : list token) (parts : list (list token))
  : list token :=
  match parts with
  | [] => []
  | [p] => p
  | p :: rest => p ++ sep ++ join_tokens sep rest
  end.

(** The tokens of an encoded dict and of an encoded list of dicts. *)
Definition item_tokens (kv : pystr * pyval) : list token :=
  [TScalar (PStr (fst kv)); TColon; TScalar (snd kv)].

Definition dict_tokens (d : dict) : list token :=
  [TLBrace] ++ join_tokens [TComma] (map item_tokens d) ++ [TRBrace].

Definition dicts_tokens (ds : list dict) : list token :=
  [TLBracket] ++ join_tokens [TComma] (map dict_tokens ds) ++ [TRBracket].

(** A dict that is a record of the four fields. *)
Definition is_record (rec : dict) : Prop :=
  exists qn qtext sans work, rec = record qn qtext sans work.

End Observations.
Export Observations.

(* ================================================================== *)
(** ** Sample inputs *)

Module Samples.

(** An interpreter to evaluate examples with: a float prints as it was
    written and no code point above ASCII counts as printable. *)
Definition sample_interp : Interp :=
  {| float_str := fun literal => literal; isprintable := fun _ => false |}.

Definition two_questions : pystr :=
  qlit "  [{`question_number`:` 1 `,`question_text`:`2+2=?`,`student_answer`:`4`,`student_working`:``}, {`question_number`:`2(a)`,`question_text`:`3x=9`,`student_answer`:`BLANK`,`student_working`:` x = 9/3 `}]  ".


Definition png_magic : list byte :=
  [x89; x50; x4e; x47; x0d; x0a; x1a; x0a].

(** A world with a credential, one readable file and a model that answers
    with two questions. *)
Definition sample_world : World :=
  {| environ := fun name =>
       if str_eqb name (lit "OPENAI_API_KEY") then Some (lit "sk-test")
       else None;
     file_bytes := fun path =>
       if str_eqb path (lit "worksheet1.png") then Some png_magic else None;
     service := fun _ _ => Some two_questions |}.

(** The same world without the credential. *)
Definition bare_world : World :=
  {| environ := fun _ => None;
     file_bytes := file_bytes sample_world;
     service := service sample_world |}.

Definition blank_identifier : pystr :=
  qlit "[{`question_number`:`1`,`question_text`:`2+2=?`}, {`question_number`:` `,`question_text`:``,`student_answer`:`x`}, {`question_text`:`3x=9`}]".

Definition noisy_array : pystr :=
  qlit "[`note`, {`question_number`:`1`}, 7, null, [{`question_number`:`9`}], {`question_number`:`2`}, true]".


(** The sample world with the credential set to the empty string. *)
Definition empty_key_world : World :=
  {| environ := fun _ => Some [];
     file_bytes := file_bytes sample_world;
     service := service sample_world |}.

(** The sample world with a model service that fails. *)
Definition silent_world : World :=
  {| environ := environ sample_world;
     file_bytes := file_bytes sample_world;
     service := fun _ _ => None |}.

(** An object whose text holds a quote, a backslash, a line break, a
    control character and a character above ASCII. *)
Definition escaped_items : list pyval :=
  [PDict [(K_number, PStr (lit " 1 "));
          (K_text, PStr (qlit "say `hi`\n"));
          (K_answer, PStr [120; 9; 10; 1; 120]);
          (K_working, PStr [233])]].

End Samples.
Export Samples.

(* ================================================================== *)
(** ** Properties of the text operations *)

Section TextFacts.

Lemma str_eqb_refl (s : pystr) : str_eqb s s = true.
Proof.
  induction s as [|c s IH]; simpl; [reflexivity|].
  now rewrite Z.eqb_refl.
Qed.

Lemma str_eqb_eq (a b : pystr) : str_eqb a b = true <-> a = b.
Proof.
  split; [|intros ->; apply str_eqb_refl].
  revert b; induction a as [|x a IH]; intros [|y b]; simpl; try discriminate.
  - reflexivity.
  - intros H; apply andb_prop in H as [Hx Hs].
    apply Z.eqb_eq in Hx; subst; f_equal; auto.
Qed.

Lemma lstrip_starts_clean (s : pystr) : starts_clean (lstrip s) = true.
Proof.
  induction s as [|c s IH]; simpl; [reflexivity|].
  destruct (isspace c) eqn:E; [exact IH|].
  simpl; now rewrite E.
Qed.

(** [lstrip] only removes a prefix. *)
Lemma lstrip_suffix (s : pystr) : exists p, s = p ++ lstrip s.
Proof.
  induction s as [|c s [p Hp]]; simpl.
  - now exists [].
  - destruct (isspace c).
    + exists (c :: p); simpl; now f_equal.
    + now exists [].
Qed.

Lemma starts_clean_app (l r : pystr) :
  l <> [] -> starts_clean (l ++ r) = starts_clean l.
Proof. destruct l; [congruence | reflexivity]. Qed.

(** Removing leading whitespace leaves the end of the text as it was. *)
Lemma lstrip_keeps_end (s : pystr) :
  starts_clean (rev s) = true -> starts_clean (rev (lstrip s)) = true.
Proof.
  intros H.
  destruct (lstrip s) as [|c t] eqn:E; [reflexivity|].
  destruct (lstrip_suffix s) as [p Hp].
  rewrite Hp, rev_app_distr, E in H.
  rewrite starts_clean_app in H; [exact H|].
  simpl; intros Hnil; apply app_eq_nil in Hnil as [_ Hnil]; discriminate.
Qed.

Lemma strip_trimmed (s : pystr) : trimmed (strip s) = true.
Proof.
  unfold trimmed, strip, rstrip.
  apply andb_true_intro; split.
  - apply lstrip_keeps_end.
    rewrite rev_involutive; apply lstrip_starts_clean.
  - rewrite rev_involutive; apply lstrip_starts_clean.
Qed.

Lemma lstrip_clean (s : pystr) : starts_clean s = true -> lstrip s = s.
Proof.
  destruct s as [|c s]; simpl; [reflexivity|].
  now destruct (isspace c).
Qed.

(** Trimming changes nothing in a text that is trimmed already. *)
Lemma strip_of_trimmed (s : pystr) : trimmed s = true -> strip s = s.
Proof.
  unfold trimmed, strip, rstrip; intros H.
  apply andb_prop in H as [H1 H2].
  rewrite (lstrip_clean s H1), (lstrip_clean _ H2).
  apply rev_involutive.
Qed.

Lemma strip_idempotent (s : pystr) : strip (strip s) = strip s.
Proof. apply strip_of_trimmed, strip_trimmed. Qed.

End TextFacts.

(* ================================================================== *)
(** ** Properties of Base64 *)

Section Base64Facts.

Local Open Scope N_scope.

Local Ltac divmod := intros; zify; Z.to_euclidean_division_equations; lia.

(** A character of the alphabet stands for the group it was chosen for. *)
Lemma char_sextet_char (n : N) :
  n < 64 -> char_sextet (code (sextet_char n)) = Some n.
Proof.
  intros H.
  rewrite <- (N2Nat.id n) in *.
  assert (Hk : (N.to_nat n < 64)%nat) by lia.
  revert Hk; generalize (N.to_nat n) as k; clear; intros k Hk.
  do 64 (destruct k as [|k]; [reflexivity|]).
  lia.
Qed.

Lemma char_sextet_pad : char_sextet (code pad) = None.
Proof. reflexivity. Qed.

Lemma code_pad : code pad = 61%Z.
Proof. reflexivity. Qed.

Lemma byte_of_to_N (x : byte) : byte_of_N (Byte.to_N x) = x.
Proof. unfold byte_of_N; now rewrite Byte.of_to_N. Qed.

Lemma byte_bound (x : byte) : Byte.to_N x < 256.
Proof. pose proof (Byte.to_N_bounded x); lia. Qed.

Lemma first_byte a b :
  a < 256 -> b < 256 -> (a / 4) * 4 + ((a mod 4) * 16 + b / 16) / 16 = a.
Proof. divmod. Qed.
Lemma second_byte a b c :
  b < 256 -> c < 256 ->
  (((a mod 4) * 16 + b / 16) mod 16) * 16 + ((b mod 16) * 4 + c / 64) / 4 = b.
Proof. divmod. Qed.
Lemma third_byte b c :
  c < 256 -> (((b mod 16) * 4 + c / 64) mod 4) * 64 + c mod 64 = c.
Proof. divmod. Qed.

(** Decoding undoes encoding, whatever the bytes. *)
Lemma b64_roundtrip_le (n : nat) (bs : list byte) :
  (List.length bs <= n)%nat -> b64decode (decode_ascii (b64encode bs)) = Some bs.
Proof.
  revert bs; induction n as [|n IH]; intros bs Hn.
  - destruct bs; [reflexivity | simpl in Hn; lia].
  - destruct bs as [|x [|y [|z rest]]]; [reflexivity| | |].
    + pose proof (byte_bound x) as Hx.
      cbn [b64encode decode_ascii map b64decode].
      rewrite !char_sextet_char, char_sextet_pad, code_pad by divmod.
      replace (Byte.to_N x mod 4 * 16 mod 16 =? 0) with true
        by (symmetry; apply N.eqb_eq; divmod).
      cbn [Z.eqb Pos.eqb andb].
      replace (Byte.to_N x / 4 * 4 + Byte.to_N x mod 4 * 16 / 16)
        with (Byte.to_N x) by divmod.
      now rewrite byte_of_to_N.
    + pose proof (byte_bound x) as Hx; pose proof (byte_bound y) as Hy.
      cbn [b64encode decode_ascii map b64decode].
      rewrite !char_sextet_char, char_sextet_pad, code_pad by divmod.
      replace (Byte.to_N y mod 16 * 4 mod 4 =? 0) with true
        by (symmetry; apply N.eqb_eq; divmod).
      cbn [Z.eqb Pos.eqb andb].
      rewrite first_byte by assumption.
      replace ((Byte.to_N x mod 4 * 16 + Byte.to_N y / 16) mod 16 * 16
               + Byte.to_N y mod 16 * 4 / 4) with (Byte.to_N y) by divmod.
      now rewrite !byte_of_to_N.
    + pose proof (byte_bound x) as Hx; pose proof (byte_bound y) as Hy.
      pose proof (byte_bound z) as Hz.
      cbn [b64encode decode_ascii map b64decode].
      fold (decode_ascii (b64encode rest)).
      rewrite !char_sextet_char by divmod.
      rewrite IH by (simpl in Hn; lia).
      rewrite first_byte, second_byte, third_byte by assumption.
      now rewrite !byte_of_to_N.
Qed.

Lemma b64_roundtrip (bs : list byte) :
  b64decode (decode_ascii (b64encode bs)) = Some bs.
Proof. exact (b64_roundtrip_le (List.length bs) bs (Nat.le_refl _)). Qed.

(** The encoder writes ASCII only, so decoding its output as UTF-8 maps
    each byte to its own code point. *)
Lemma sextet_char_ascii (n : N) : Byte.to_N (sextet_char n) < 128.
Proof.
  unfold sextet_char.
  destruct (nth_in_or_default (N.to_nat n) alphabet pad) as [Hin | ->];
    [|reflexivity].
  revert Hin; generalize (nth (N.to_nat n) alphabet pad) as b.
  apply Forall_forall.
  repeat constructor.
Qed.

Lemma b64encode_ascii (bs : list byte) :
  Forall (fun b => Byte.to_N b < 128) (b64encode bs).
Proof.
  assert (Hpad : Byte.to_N pad < 128) by reflexivity.
  assert (H : forall n bs, (List.length bs <= n)%nat ->
                           Forall (fun b => Byte.to_N b < 128) (b64encode bs)).
  { clear bs; induction n as [|n IH]; intros bs Hn.
    - destruct bs; [constructor | simpl in Hn; lia].
    - destruct bs as [|x [|y [|z rest]]]; cbn [b64encode];
        repeat (constructor; try apply sextet_char_ascii; try exact Hpad).
      apply IH; simpl in Hn; lia. }
  exact (H (List.length bs) bs (Nat.le_refl _)).
Qed.

End Base64Facts.

(* ================================================================== *)
(** ** Properties of the decoder *)

Section DecoderFacts.








(** The examples of the design document, and the usual near misses. *)
Example loads_record :
  json_loads (qlit "[{`question_number`:`2(a)`,`student_answer`:``}]")
  = Some (PList [PDict [(K_number, PStr (lit "2(a)"));
                        (K_answer, PStr [])]]).
Proof. reflexivity. Qed.

Example loads_object :
  json_loads (qlit "{`a`:1}") = Some (PDict [(lit "a", PInt 1)]).
Proof. reflexivity. Qed.

Example loads_last_key_wins :
  json_loads (qlit "{`a`: 1, `b`: [-2, 1.5e3, true], `a`: null}")
  = Some (PDict [(lit "a", PNone);
                 (lit "b", PList [PInt (-2); PFloat (lit "1.5e3");
                                  PBool true])]).
Proof. reflexivity. Qed.

Example standard_json :
  map valid_json
      (map qlit ["[]"; " [1, -2.5e+3, null] "; "{`a`: {`b`: [true, false]}}";
                 "NaN"; "[Infinity]"; "[-Infinity]"]%string)
  = [true; true; true; false; false; false].
Proof. reflexivity. Qed.

Example loads_rejects :
  map json_loads
      (map qlit ["not json"; ""; "[1,]"; "{`a`:1,}"; "01"; "1."; "[1 2]";
                 "{`a`}"; "`abc"; "[`a`:1]"; "[[]"; "'a'"; "nul"]%string)
  = repeat None 13.
Proof. reflexivity. Qed.

End DecoderFacts.

(* ================================================================== *)
(** ** Properties of the cleaning loop *)

Section LoopFacts.
Context {I : Interp}.

(** What one element adds to [cleaned] does not depend on [cleaned]. *)
Lemma loop_body_app (cleaned : list dict) (item : pyval) :
  loop_body cleaned item = cleaned ++ loop_body [] item.
Proof.
  destruct item; simpl; try (now rewrite app_nil_r).
  destruct (is_empty (field d K_number) && is_empty (field d K_text));
    [now rewrite app_nil_r | reflexivity].
Qed.

Lemma loop_fold (items : list pyval) (cleaned : list dict) :
  fold_left loop_body items cleaned
  = cleaned ++ flat_map (loop_body []) items.
Proof.
  revert cleaned; induction items as [|item items IH]; intros cleaned; simpl.
  - now rewrite app_nil_r.
  - now rewrite IH, (loop_body_app cleaned), app_assoc.
Qed.

Lemma loop_app (l1 l2 : list pyval) :
  fold_left loop_body (l1 ++ l2) []
  = fold_left loop_body l1 [] ++ fold_left loop_body l2 [].
Proof. rewrite !loop_fold; simpl; apply flat_map_app. Qed.

Lemma loop_skips (item : pyval) :
  is_dict item = false -> loop_body [] item = [].
Proof. destruct item; simpl; congruence. Qed.

Lemma loop_filter (items : list pyval) :
  fold_left loop_body (filter is_dict items) []
  = fold_left loop_body items [].
Proof.
  rewrite !loop_fold; simpl.
  induction items as [|item items IH]; simpl; [reflexivity|].
  destruct (is_dict item) eqn:E; simpl; [now rewrite IH|].
  now rewrite (loop_skips item E).
Qed.

Lemma is_empty_nil (s : pystr) : is_empty s = true <-> s = [].
Proof. destruct s; simpl; split; congruence. Qed.

Lemma loop_discards (d : dict) :
  field d K_number = [] -> field d K_text = [] -> loop_body [] (PDict d) = [].
Proof. intros Hn Ht; simpl; now rewrite Hn, Ht. Qed.

Lemma loop_retains (d : dict) :
  field d K_number <> [] \/ field d K_text <> [] ->
  loop_body [] (PDict d)
  = [record (field d K_number) (field d K_text)
            (field d K_answer) (field d K_working)].
Proof.
  intros H; simpl.
  destruct (is_empty (field d K_number) && is_empty (field d K_text)) eqn:E;
    [|reflexivity].
  apply andb_prop in E as [En Et].
  apply is_empty_nil in En, Et.
  destruct H; contradiction.
Qed.

Lemma field_present (d : dict) (k : pystr) (v : pyval) :
  dict_lookup d k = Some v -> field d k = strip (py_str v).
Proof. intros H; unfold field, dict_get; now rewrite H. Qed.



Lemma field_trimmed (d : dict) (k : pystr) : trimmed (field d k) = true.
Proof. apply strip_trimmed. Qed.

Lemma record_canonical (qn qtext sans work : pystr) :
  trimmed qn = true -> trimmed qtext = true ->
  trimmed sans = true -> trimmed work = true ->
  canonical (record qn qtext sans work).
Proof.
  intros; split; [reflexivity|].
  repeat constructor; simpl; eauto.
Qed.

Lemma record_identifier (qn qtext sans work : pystr) :
  qn <> [] \/ qtext <> [] -> has_identifier (record qn qtext sans work).
Proof. intros H; exists qn, qtext; repeat split; auto. Qed.

(** Every record the loop produces is canonical and identifies its
    question. *)
Lemma loop_body_records (item : pyval) :
  Forall (fun rec => canonical rec /\ has_identifier rec)
         (loop_body [] item).
Proof.
  destruct item; simpl; try constructor.
  destruct (is_empty (field d K_number) && is_empty (field d K_text)) eqn:E;
    constructor; [|constructor].
  split.
  - apply record_canonical; apply field_trimmed.
  - apply record_identifier.
    apply andb_false_iff in E as [E | E]; [left | right];
      intros Hnil; rewrite Hnil in E; discriminate.
Qed.

Lemma loop_records (items : list pyval) :
  Forall (fun rec => canonical rec /\ has_identifier rec)
         (fold_left loop_body items []).
Proof.
  rewrite loop_fold; simpl.
  induction items as [|item items IH]; simpl; [constructor|].
  apply Forall_app; split; [apply loop_body_records | exact IH].
Qed.

(** When the decoder yields a list, the parser returns the loop's result
    without any other effect. *)
Lemma parse_response_list (raw : pystr) (items : list pyval) :
  json_loads (strip raw) = Some (PList items) ->
  parse_response raw = ([], Return (fold_left loop_body items [])).
Proof. intros H; unfold parse_response; now rewrite H. Qed.

End LoopFacts.

(* ================================================================== *)
(** ** The response parser *)



(** C2: an object whose question number and question text are both empty
    after trimming is discarded, whatever its other fields hold: the
    result is the one obtained without it; and every record that is
    returned has a non-empty trimmed question number or question text. *)
Theorem empty_identifier_discarded {I : Interp}
    (raw : pystr) (items : list pyval) :
  json_loads (strip raw) = Some (PList items) ->
  exists recs,
    parse_response raw = ([], Return recs)
    /\ Forall has_identifier recs
    /\ forall before d after,
         items = before ++ PDict d :: after ->
         field d K_number = [] -> field d K_text = [] ->
         recs = fold_left loop_body (before ++ after) [].
Proof.
  intros Hload.
  exists (fold_left loop_body items []).
  split; [now apply parse_response_list|].
  split.
  - eapply Forall_impl; [|apply loop_records].
    now intros rec [_ Hid].
  - intros before d after -> Hn Ht.
    rewrite !loop_app.
    change (PDict d :: after) with ([PDict d] ++ after).
    rewrite loop_app, (loop_fold [PDict d]); cbn [flat_map app].
    now rewrite (loop_discards d Hn Ht).
Qed.

Lemma empty_identifier_discarded_witness :
  exists items recs,
    json_loads (strip blank_identifier) = Some (PList items)
    /\ @parse_response sample_interp blank_identifier = ([], Return recs)
    /\ Forall has_identifier recs
    /\ recs = [record (lit "1") (lit "2+2=?") [] [];
               record [] (lit "3x=9") [] []].
Proof.
  eexists.
  destruct (@empty_identifier_discarded sample_interp blank_identifier _
              eq_refl) as (recs & Hrun & Hid & Hdrop).
  exists recs.
  split; [reflexivity|].
  split; [exact Hrun|].
  split; [exact Hid|].
  exact (Hdrop [PDict [(K_number, PStr (lit "1"));
                       (K_text, PStr (lit "2+2=?"))]]
               [(K_number, PStr (lit " ")); (K_text, PStr []);
                (K_answer, PStr (lit "x"))]
               [PDict [(K_text, PStr (lit "3x=9"))]]
               eq_refl eq_refl eq_refl).
Defined.




(** C4: when the response is valid JSON but its top-level value is not an
    array, the parser raises the shape error and returns no records. *)
Theorem non_array_fails {I : Interp} (raw : pystr) (v : pyval) :
  json_loads (strip raw) = Some v ->
  is_list v = false ->
  parse_response raw
  = ([], Raise (ValueError (lit "Expected a JSON array from vision model"))).
Proof.
  intros Hload Hv; unfold parse_response; rewrite Hload.
  destruct v; try reflexivity; discriminate.
Qed.

Lemma non_array_fails_witness :
  json_loads (strip (qlit "{`a`:1}")) = Some (PDict [(lit "a", PInt 1)])
  /\ is_list (PDict [(lit "a", PInt 1)]) = false
  /\ @parse_response sample_interp (qlit "{`a`:1}")
     = ([], Raise (ValueError
                     (lit "Expected a JSON array from vision model"))).
Proof.
  split; [reflexivity|].
  split; [reflexivity|].
  exact (@non_array_fails sample_interp (qlit "{`a`:1}")
           (PDict [(lit "a", PInt 1)]) eq_refl eq_refl).
Defined.



(** C6: an element of the array that is not an object is skipped without
    a failure or a message: the result is the one obtained from the
    objects alone, and the elements before and after it yield the records
    they yield on their own, in the same order. *)
Theorem non_objects_skipped {I : Interp}
    (raw : pystr) (items : list pyval) :
  json_loads (strip raw) = Some (PList items) ->
  parse_response raw
  = ([], Return (fold_left loop_body (filter is_dict items) []))
  /\ forall before x after,
       items = before ++ x :: after ->
       is_dict x = false ->
       fold_left loop_body items []
       = fold_left loop_body before [] ++ fold_left loop_body after [].
Proof.
  intros Hload; split.
  - rewrite loop_filter; now apply parse_response_list.
  - intros before x after -> Hx.
    change (x :: after) with ([x] ++ after).
    rewrite !loop_app, (loop_fold [x]); cbn [flat_map app].
    now rewrite (loop_skips x Hx).
Qed.

Lemma non_objects_skipped_witness :
  exists items,
    json_loads (strip noisy_array) = Some (PList items)
    /\ @parse_response sample_interp noisy_array
       = ([], Return [record (lit "1") [] [] []; record (lit "2") [] [] []])
    /\ filter is_dict items
       = [PDict [(K_number, PStr (lit "1"))];
          PDict [(K_number, PStr (lit "2"))]].
Proof.
  eexists.
  split; [reflexivity|].
  split; [|reflexivity].
  exact (proj1 (@non_objects_skipped sample_interp noisy_array _ eq_refl)).
Defined.



(* ================================================================== *)
(** ** The image encoder *)

(** C8: for a readable file the encoder returns, after the one read, a
    data URI made of the MIME tag and a Base64 payload, and decoding the
    payload gives back exactly the bytes of the file. *)
Theorem data_url_roundtrip (w : World) (path : pystr) (b : list byte) :
  file_bytes w path = Some b ->
  exists payload,
    _image_to_data_url w path
    = ([EvRead path], Return (data_url_prefix ++ payload))
    /\ b64decode payload = Some b.
Proof.
  intros Hfile.
  exists (decode_ascii (b64encode b)).
  split; [|apply b64_roundtrip].
  unfold _image_to_data_url, read_file; simpl; now rewrite Hfile.
Qed.

Lemma data_url_roundtrip_witness :
  file_bytes sample_world (lit "worksheet1.png") = Some png_magic
  /\ exists payload,
       _image_to_data_url sample_world (lit "worksheet1.png")
       = ([EvRead (lit "worksheet1.png")],
          Return (data_url_prefix ++ payload))
       /\ b64decode payload = Some png_magic.
Proof.
  split; [reflexivity|].
  exact (data_url_roundtrip sample_world (lit "worksheet1.png") png_magic
           eq_refl).
Defined.

(** C10: whatever bytes the file holds, the URL starts with the fixed tag
    [data:image/jpeg;base64,]; the bytes are not inspected. *)
Theorem data_url_always_jpeg (w : World) (path : pystr) (b : list byte) :
  file_bytes w path = Some b ->
  exists url,
    result (_image_to_data_url w path) = Return url
    /\ url = lit "data:image/jpeg;base64," ++ decode_ascii (b64encode b)
    /\ firstn 23 url = lit "data:image/jpeg;base64,".
Proof.
  intros Hfile.
  exists (lit "data:image/jpeg;base64," ++ decode_ascii (b64encode b)).
  split; [|split; reflexivity].
  unfold _image_to_data_url, read_file; simpl; now rewrite Hfile.
Qed.

Lemma data_url_always_jpeg_witness :
  file_bytes sample_world (lit "worksheet1.png") = Some png_magic
  /\ exists url,
       result (_image_to_data_url sample_world (lit "worksheet1.png"))
       = Return url
       /\ url = lit "data:image/jpeg;base64," ++ lit "iVBORw0KGgo="
       /\ firstn 23 url = lit "data:image/jpeg;base64,".
Proof.
  split; [reflexivity|].
  exact (data_url_always_jpeg sample_world (lit "worksheet1.png") png_magic
           eq_refl).
Defined.

(* ================================================================== *)
(** ** The whole extraction *)

(** With a credential, a readable file and an answering service, the run
    reads the file, sends one request and parses the answer. *)
Lemma extract_run {I : Interp} (w : World) (path : pystr)
    (c : Z) (key : pystr) (b : list byte) (text : pystr) :
  environ w (lit "OPENAI_API_KEY") = Some (c :: key) ->
  file_bytes w path = Some b ->
  let r := {| req_model := VISION_MODEL;
              req_text := prompt;
              req_image_url :=
                data_url_prefix ++ decode_ascii (b64encode b);
              req_max_output_tokens := 800 |} in
  service w (c :: key) r = Some text ->
  extract_qa_from_image w path
  = ([EvRead path; EvRequest (c :: key) r] ++ trace (parse_response text),
     result (parse_response text)).
Proof.
  intros Henv Hfile r Hserv.
  subst r.
  unfold extract_qa_from_image, _client, _image_to_data_url, read_file,
    responses_create.
  rewrite Henv, Hfile; cbn [bind emit ret app].
  rewrite Hserv; cbn [bind emit ret app].
  now destruct (parse_response text).
Qed.

(** C9: without the credential in the environment the extraction raises
    the configuration error at once: the trace is empty, so the file was
    not read and no request was sent. *)
Theorem missing_credential_fails_first {I : Interp}
    (w : World) (image_path : pystr) :
  environ w (lit "OPENAI_API_KEY") = None ->
  extract_qa_from_image w image_path
  = ([], Raise (RuntimeError (lit "OPENAI_API_KEY not set")))
  /\ existsb is_read (trace (extract_qa_from_image w image_path)) = false
  /\ existsb is_request (trace (extract_qa_from_image w image_path)) = false.
Proof.
  intros Henv.
  unfold extract_qa_from_image, _client; rewrite Henv.
  repeat split.
Qed.

Lemma missing_credential_fails_first_witness :
  environ bare_world (lit "OPENAI_API_KEY") = None
  /\ @extract_qa_from_image sample_interp bare_world (lit "worksheet1.png")
     = ([], Raise (RuntimeError (lit "OPENAI_API_KEY not set")))
  /\ trace (@extract_qa_from_image sample_interp sample_world
              (lit "worksheet1.png"))
     <> [].
Proof.
  split; [reflexivity|].
  split; [|discriminate].
  exact (proj1 (@missing_credential_fails_first sample_interp bare_world
                  (lit "worksheet1.png") eq_refl)).
Defined.

(* ================================================================== *)
(** ** Further properties of the extraction *)

Section RunFacts.
Context {I : Interp}.

(** The four ways a run can go, by what the world holds. *)
Lemma run_no_credential (w : World) (path : pystr) :
  environ w (lit "OPENAI_API_KEY") = None
  \/ environ w (lit "OPENAI_API_KEY") = Some [] ->
  extract_qa_from_image w path
  = ([], Raise (RuntimeError (lit "OPENAI_API_KEY not set"))).
Proof.
  intros [H | H]; unfold extract_qa_from_image, _client; now rewrite H.
Qed.


Lemma run_no_answer (w : World) (path : pystr) (c : Z) (key : pystr)
    (b : list byte) :
  environ w (lit "OPENAI_API_KEY") = Some (c :: key) ->
  file_bytes w path = Some b ->
  service w (c :: key) (request_for b) = None ->
  extract_qa_from_image w path
  = ([EvRead path; EvRequest (c :: key) (request_for b)], Raise APIError).
Proof.
  intros Henv Hfile Hserv.
  unfold extract_qa_from_image, _client, _image_to_data_url, read_file,
    responses_create.
  rewrite Henv, Hfile; cbn [bind emit ret app].
  fold (request_for b); now rewrite Hserv.
Qed.

Lemma run_answer (w : World) (path : pystr) (c : Z) (key : pystr)
    (b : list byte) (text : pystr) :
  environ w (lit "OPENAI_API_KEY") = Some (c :: key) ->
  file_bytes w path = Some b ->
  service w (c :: key) (request_for b) = Some text ->
  extract_qa_from_image w path
  = ([EvRead path; EvRequest (c :: key) (request_for b)]
       ++ trace (parse_response text),
     result (parse_response text)).
Proof. apply extract_run. Qed.


End RunFacts.

(** X1: a credential that is set to the empty string counts as missing:
    the extraction raises the configuration error with an empty trace, so
    the file is not read and no request is sent. *)
Theorem empty_credential_is_missing {I : Interp}
    (w : World) (image_path : pystr) :
  environ w (lit "OPENAI_API_KEY") = Some [] ->
  _client w = ([], Raise (RuntimeError (lit "OPENAI_API_KEY not set")))
  /\ extract_qa_from_image w image_path
     = ([], Raise (RuntimeError (lit "OPENAI_API_KEY not set"))).
Proof.
  intros Henv; split.
  - unfold _client; now rewrite Henv.
  - apply run_no_credential; now right.
Qed.

Lemma empty_credential_is_missing_witness :
  environ empty_key_world (lit "OPENAI_API_KEY") = Some []
  /\ _client empty_key_world
     = ([], Raise (RuntimeError (lit "OPENAI_API_KEY not set")))
  /\ @extract_qa_from_image sample_interp empty_key_world
       (lit "worksheet1.png")
     = ([], Raise (RuntimeError (lit "OPENAI_API_KEY not set"))).
Proof.
  split; [reflexivity|].
  exact (@empty_credential_is_missing sample_interp empty_key_world
           (lit "worksheet1.png") eq_refl).
Defined.



(** X3: when the model call fails, its error is raised after the read and
    the one request; nothing is printed and no records are returned. *)
Theorem service_failure_propagates {I : Interp}
    (w : World) (image_path : pystr) (c : Z) (key : pystr) (b : list byte) :
  environ w (lit "OPENAI_API_KEY") = Some (c :: key) ->
  file_bytes w image_path = Some b ->
  service w (c :: key) (request_for b) = None ->
  extract_qa_from_image w image_path
  = ([EvRead image_path; EvRequest (c :: key) (request_for b)],
     Raise APIError).
Proof. apply run_no_answer. Qed.

Lemma service_failure_propagates_witness :
  environ silent_world (lit "OPENAI_API_KEY") = Some (lit "sk-test")
  /\ file_bytes silent_world (lit "worksheet1.png") = Some png_magic
  /\ service silent_world (lit "sk-test") (request_for png_magic) = None
  /\ @extract_qa_from_image sample_interp silent_world (lit "worksheet1.png")
     = ([EvRead (lit "worksheet1.png");
         EvRequest (lit "sk-test") (request_for png_magic)],
        Raise APIError).
Proof.
  split; [reflexivity|].
  split; [reflexivity|].
  split; [reflexivity|].
  exact (@service_failure_propagates sample_interp silent_world
           (lit "worksheet1.png") 115 (lit "k-test") png_magic
           eq_refl eq_refl eq_refl).
Defined.

(** X4: with a credential, a readable image and an answering model, the
    run reads the image, then sends one request that carries the key, the
    model name, the fixed prompt, the 800-token ceiling and a URL from
    which the bytes of the image can be decoded, and it ends as the parser
    ends on the answer. *)
Theorem request_carries_image {I : Interp}
    (w : World) (image_path : pystr) (c : Z) (key : pystr) (b : list byte)
    (text : pystr) :
  environ w (lit "OPENAI_API_KEY") = Some (c :: key) ->
  file_bytes w image_path = Some b ->
  service w (c :: key) (request_for b) = Some text ->
  exists r,
    extract_qa_from_image w image_path
    = ([EvRead image_path; EvRequest (c :: key) r]
         ++ trace (parse_response text),
       result (parse_response text))
    /\ req_model r = lit "gpt-4.1-mini"
    /\ req_text r = prompt
    /\ req_max_output_tokens r = 800
    /\ b64decode (skipn 23 (req_image_url r)) = Some b.
Proof.
  intros Henv Hfile Hserv.
  exists (request_for b).
  split; [now apply run_answer|].
  repeat split.
  apply b64_roundtrip.
Qed.

Lemma request_carries_image_witness :
  environ sample_world (lit "OPENAI_API_KEY") = Some (lit "sk-test")
  /\ file_bytes sample_world (lit "worksheet1.png") = Some png_magic
  /\ service sample_world (lit "sk-test") (request_for png_magic)
     = Some two_questions
  /\ exists r,
       @extract_qa_from_image sample_interp sample_world
         (lit "worksheet1.png")
       = ([EvRead (lit "worksheet1.png"); EvRequest (lit "sk-test") r]
            ++ trace (@parse_response sample_interp two_questions),
          result (@parse_response sample_interp two_questions))
       /\ req_model r = lit "gpt-4.1-mini"
       /\ req_text r = prompt
       /\ req_max_output_tokens r = 800
       /\ b64decode (skipn 23 (req_image_url r)) = Some png_magic.
Proof.
  split; [reflexivity|].
  split; [reflexivity|].
  split; [reflexivity|].
  exact (@request_carries_image sample_interp sample_world
           (lit "worksheet1.png") 115 (lit "k-test") png_magic two_questions
           eq_refl eq_refl eq_refl).
Defined.


(* ================================================================== *)
(** ** Further properties of trimming and of the parser *)

Section TrimFacts.

Lemma lstrip_spaces (p s : pystr) :
  forallb isspace p = true -> lstrip (p ++ s) = lstrip s.
Proof.
  induction p as [|c p IH]; simpl; [reflexivity|].
  intros H; apply andb_prop in H as [Hc Hp].
  rewrite Hc; auto.
Qed.

Lemma lstrip_all_spaces (p : pystr) :
  forallb isspace p = true -> lstrip p = [].
Proof.
  intros H; rewrite <- (app_nil_r p); now rewrite lstrip_spaces.
Qed.

Lemma lstrip_app (s q : pystr) :
  lstrip (s ++ q)
  = match lstrip s with
    | [] => lstrip q
    | l => l ++ q
    end.
Proof.
  induction s as [|c s IH]; simpl; [now destruct (lstrip q)|].
  destruct (isspace c); [exact IH | reflexivity].
Qed.

Lemma forallb_rev (f : Z -> bool) (l : pystr) :
  forallb f l = true -> forallb f (rev l) = true.
Proof.
  rewrite !forallb_forall; intros H x Hx; apply H; now apply in_rev.
Qed.

Lemma rstrip_spaces (s q : pystr) :
  forallb isspace q = true -> rstrip (s ++ q) = rstrip s.
Proof.
  intros H; unfold rstrip.
  now rewrite rev_app_distr, lstrip_spaces by now apply forallb_rev.
Qed.

(** Whitespace around a text does not change what trimming leaves. *)
Lemma strip_spaces (p s q : pystr) :
  forallb isspace p = true -> forallb isspace q = true ->
  strip (p ++ s ++ q) = strip s.
Proof.
  intros Hp Hq; unfold strip.
  rewrite lstrip_spaces, lstrip_app by assumption.
  destruct (lstrip s) as [|c l] eqn:E.
  - now rewrite lstrip_all_spaces.
  - now apply rstrip_spaces.
Qed.

Lemma lstrip_split (s : pystr) :
  exists p, s = p ++ lstrip s /\ forallb isspace p = true.
Proof.
  induction s as [|c s (p & Hp & Hsp)]; simpl.
  - now exists [].
  - destruct (isspace c) eqn:E.
    + exists (c :: p); simpl; rewrite E; split; [now f_equal | exact Hsp].
    + now exists [].
Qed.

Lemma rstrip_split (s : pystr) :
  exists q, s = rstrip s ++ q /\ forallb isspace q = true.
Proof.
  destruct (lstrip_split (rev s)) as (p & Hp & Hsp).
  exists (rev p); split; [|now apply forallb_rev].
  unfold rstrip; rewrite <- rev_app_distr, <- Hp; symmetry; apply rev_involutive.
Qed.

(** Trimming removes whitespace at the two ends and nothing else. *)
Lemma strip_split (s : pystr) :
  exists p q,
    s = p ++ strip s ++ q
    /\ forallb isspace p = true /\ forallb isspace q = true.
Proof.
  destruct (lstrip_split s) as (p & Hp & Hsp).
  destruct (rstrip_split (lstrip s)) as (q & Hq & Hsq).
  exists p, q; unfold strip; now rewrite <- Hq.
Qed.

End TrimFacts.

Section RecordFacts.
Context {I : Interp}.

Lemma record_lookup (qn qtext sans work : pystr) :
  let rec := record qn qtext sans work in
  dict_lookup rec K_number = Some (PStr qn)
  /\ dict_lookup rec K_text = Some (PStr qtext)
  /\ dict_lookup rec K_answer = Some (PStr sans)
  /\ dict_lookup rec K_working = Some (PStr work).
Proof. repeat split. Qed.

Lemma canonical_record (rec : dict) :
  canonical rec ->
  exists qn qtext sans work,
    rec = record qn qtext sans work
    /\ trimmed qn = true /\ trimmed qtext = true
    /\ trimmed sans = true /\ trimmed work = true.
Proof.
  intros [Hkeys Hvals].
  destruct rec as [|[k1 v1] [|[k2 v2] [|[k3 v3] [|[k4 v4] [|? ?]]]]];
    try discriminate.
  injection Hkeys as -> -> -> ->.
  repeat match goal with
         | H : Forall _ (_ :: _) |- _ => inversion H; subst; clear H
         end.
  simpl in *.
  repeat match goal with
         | H : exists s, _ = PStr s /\ _ |- _ =>
             destruct H as (? & -> & ?)
         end.
  do 4 eexists; split; [reflexivity|]; repeat split; assumption.
Qed.

(** A record the loop has produced passes the loop unchanged. *)
Lemma loop_fixes_record (rec : dict) :
  canonical rec -> has_identifier rec -> loop_body [] (PDict rec) = [rec].
Proof.
  intros Hc (qn' & qtext' & Hn & Ht & Hid).
  destruct (canonical_record rec Hc)
    as (qn & qtext & sans & work & -> & Tn & Tt & Ta & Tw).
  destruct (record_lookup qn qtext sans work) as (Ln & Lt & La & Lw).
  rewrite Ln in Hn; rewrite Lt in Ht.
  injection Hn as <-; injection Ht as <-.
  rewrite loop_retains;
    rewrite ?(field_present _ _ _ Ln), ?(field_present _ _ _ Lt),
      ?(field_present _ _ _ La), ?(field_present _ _ _ Lw);
    cbn [py_str]; rewrite ?strip_of_trimmed by assumption;
    [reflexivity | exact Hid].
Qed.

Lemma loop_fixes_records (recs : list dict) :
  Forall (fun rec => canonical rec /\ has_identifier rec) recs ->
  fold_left loop_body (map PDict recs) [] = recs.
Proof.
  intros H; rewrite loop_fold; cbn [app].
  induction H as [|rec recs [Hc Hid] _ IH]; cbn [map flat_map];
    [reflexivity|].
  now rewrite (loop_fixes_record rec Hc Hid), IH.
Qed.

Lemma loop_body_length (item : pyval) :
  (List.length (loop_body [] item) <= if is_dict item then 1 else 0)%nat.
Proof.
  destruct item; simpl; try lia.
  destruct (is_empty (field d K_number) && is_empty (field d K_text));
    simpl; lia.
Qed.

Lemma loop_length (items : list pyval) :
  (List.length (fold_left loop_body items [])
   <= List.length (filter is_dict items))%nat.
Proof.
  rewrite loop_fold; simpl.
  induction items as [|item items IH]; simpl; [lia|].
  rewrite length_app.
  pose proof (loop_body_length item) as H.
  destruct (is_dict item); simpl; lia.
Qed.

Lemma loop_body_in (item : pyval) (rec : dict) :
  In rec (loop_body [] item)
  <-> exists d,
        item = PDict d
        /\ (field d K_number <> [] \/ field d K_text <> [])
        /\ rec = record (field d K_number) (field d K_text)
                        (field d K_answer) (field d K_working).
Proof.
  split.
  - destruct item; simpl; try tauto.
    destruct (is_empty (field d K_number) && is_empty (field d K_text)) eqn:E;
      simpl; [tauto|].
    intros [<- | []]; exists d; repeat split.
    apply andb_false_iff in E as [E | E]; [left | right];
      intros Hnil; rewrite Hnil in E; discriminate.
  - intros (d & -> & Hid & ->).
    rewrite (loop_retains d Hid); now left.
Qed.

End RecordFacts.


(** X7: whitespace before and after the response, of any kind that
    [strip] removes, does not change what the parser does. *)
Theorem surrounding_whitespace_ignored {I : Interp} (p raw q : pystr) :
  forallb isspace p = true ->
  forallb isspace q = true ->
  parse_response (p ++ raw ++ q) = parse_response raw.
Proof.
  intros Hp Hq; unfold parse_response.
  now rewrite strip_spaces.
Qed.

Lemma surrounding_whitespace_ignored_witness :
  let raw := qlit "[{`question_number`:`1`}]" in
  forallb isspace [10; 9; 32; 160] = true
  /\ forallb isspace [13; 10; 12288] = true
  /\ @parse_response sample_interp ([10; 9; 32; 160] ++ raw ++ [13; 10; 12288])
     = @parse_response sample_interp raw.
Proof.
  intros raw.
  split; [reflexivity|].
  split; [reflexivity|].
  exact (@surrounding_whitespace_ignored sample_interp [10; 9; 32; 160] raw
           [13; 10; 12288] eq_refl eq_refl).
Defined.

(** X8: the parser never returns more records than the array holds
    objects, hence never more than it holds elements. *)
Theorem record_count_bounded {I : Interp}
    (raw : pystr) (items : list pyval) :
  json_loads (strip raw) = Some (PList items) ->
  exists recs,
    parse_response raw = ([], Return recs)
    /\ (List.length recs <= List.length (filter is_dict items))%nat
    /\ (List.length recs <= List.length items)%nat.
Proof.
  intros Hload.
  exists (fold_left loop_body items []).
  split; [now apply parse_response_list|].
  pose proof (loop_length items) as H.
  pose proof (filter_length_le is_dict items) as H'.
  split; lia.
Qed.

Lemma record_count_bounded_witness :
  exists items recs,
    json_loads (strip noisy_array) = Some (PList items)
    /\ @parse_response sample_interp noisy_array = ([], Return recs)
    /\ List.length items = 7%nat
    /\ (List.length recs <= 2)%nat.
Proof.
  eexists.
  destruct (@record_count_bounded sample_interp noisy_array _ eq_refl)
    as (recs & Hrun & Hle & _).
  exists recs.
  split; [reflexivity|].
  split; [exact Hrun|].
  split; [reflexivity | exact Hle].
Defined.

(** X9: only the four expected keys of an object are read: two objects
    that agree on them yield the same record, whatever else they hold. *)
Theorem only_four_keys_read {I : Interp}
    (d d' : dict) (cleaned : list dict) :
  (forall k, In k [K_number; K_text; K_answer; K_working] ->
             dict_lookup d k = dict_lookup d' k) ->
  loop_body cleaned (PDict d) = loop_body cleaned (PDict d').
Proof.
  intros H.
  assert (Hf : forall k, In k [K_number; K_text; K_answer; K_working] ->
                         field d k = field d' k).
  { intros k Hk; unfold field, dict_get; now rewrite (H k Hk). }
  cbn [loop_body].
  rewrite !(Hf K_number), !(Hf K_text), !(Hf K_answer), !(Hf K_working);
    simpl; auto 6.
Qed.

Lemma only_four_keys_read_witness :
  let d := [(lit "teacher_note", PStr (lit "see me")); (K_number, PStr (lit "1"));
            (lit "marks", PInt 3)] in
  let d' := [(K_number, PStr (lit "1"))] in
  (forall k, In k [K_number; K_text; K_answer; K_working] ->
             dict_lookup d k = dict_lookup d' k)
  /\ @loop_body sample_interp [] (PDict d) = [record (lit "1") [] [] []].
Proof.
  intros d d'.
  assert (H : forall k, In k [K_number; K_text; K_answer; K_working] ->
                        dict_lookup d k = dict_lookup d' k).
  { intros k [<- | [<- | [<- | [<- | []]]]]; reflexivity. }
  split; [exact H|].
  exact (@only_four_keys_read sample_interp d d' [] H).
Defined.

(** X10: cleaning is idempotent: when the records the loop has produced
    are given to it again as objects, it returns them unchanged. *)
Theorem cleaning_idempotent {I : Interp} (items : list pyval) :
  fold_left loop_body (map PDict (fold_left loop_body items [])) []
  = fold_left loop_body items [].
Proof. apply loop_fixes_records, loop_records. Qed.

(** X11: a field that holds a string comes out as that string without its
    leading and trailing whitespace, and is otherwise untouched: the
    string is the field between two runs of whitespace. *)
Theorem field_keeps_inner_text {I : Interp}
    (d : dict) (k : pystr) (s : pystr) :
  dict_lookup d k = Some (PStr s) ->
  exists p q,
    s = p ++ field d k ++ q
    /\ forallb isspace p = true /\ forallb isspace q = true
    /\ trimmed (field d k) = true.
Proof.
  intros H; rewrite (field_present d k (PStr s) H); cbn [py_str].
  destruct (strip_split s) as (p & q & Hs & Hp & Hq).
  exists p, q; repeat split; try assumption.
  apply strip_trimmed.
Qed.

Lemma field_keeps_inner_text_witness :
  let d := [(K_working, PStr (lit "  x = 9 / 3  "))] in
  dict_lookup d K_working = Some (PStr (lit "  x = 9 / 3  "))
  /\ @field sample_interp d K_working = lit "x = 9 / 3"
  /\ exists p q,
       lit "  x = 9 / 3  " = p ++ @field sample_interp d K_working ++ q
       /\ forallb isspace p = true /\ forallb isspace q = true
       /\ trimmed (@field sample_interp d K_working) = true.
Proof.
  intros d.
  split; [reflexivity|].
  split; [reflexivity|].
  exact (@field_keeps_inner_text sample_interp d K_working
           (lit "  x = 9 / 3  ") eq_refl).
Defined.

(** X12: the parser neither invents nor loses records: a record is
    returned exactly when the array holds an object with a non-empty number
    or text whose four trimmed fields it is. *)
Theorem records_trace_back {I : Interp}
    (raw : pystr) (items : list pyval) :
  json_loads (strip raw) = Some (PList items) ->
  exists recs,
    parse_response raw = ([], Return recs)
    /\ forall rec,
         In rec recs
         <-> exists d,
               In (PDict d) items
               /\ (field d K_number <> [] \/ field d K_text <> [])
               /\ rec = record (field d K_number) (field d K_text)
                               (field d K_answer) (field d K_working).
Proof.
  intros Hload.
  exists (fold_left loop_body items []).
  split; [now apply parse_response_list|].
  intros rec; rewrite loop_fold; cbn [app].
  rewrite in_flat_map; split.
  - intros (item & Hin & Hrec).
    apply loop_body_in in Hrec as (d & -> & Hid & ->).
    now exists d.
  - intros (d & Hin & Hid & ->).
    exists (PDict d); split; [exact Hin|].
    apply loop_body_in; now exists d.
Qed.

Lemma records_trace_back_witness :
  exists items recs,
    json_loads (strip blank_identifier) = Some (PList items)
    /\ @parse_response sample_interp blank_identifier = ([], Return recs)
    /\ In (record [] (lit "3x=9") [] []) recs.
Proof.
  eexists.
  destruct (@records_trace_back sample_interp blank_identifier _ eq_refl)
    as (recs & Hrun & Hin).
  exists recs.
  split; [reflexivity|].
  split; [exact Hrun|].
  apply Hin.
  exists [(K_text, PStr (lit "3x=9"))].
  split; [right; right; left; reflexivity|].
  split; [right; discriminate | reflexivity].
Defined.

(* ================================================================== *)
(** ** Further properties of the image encoder *)

Section EncoderFacts.

Local Ltac divmod := intros; zify; Z.to_euclidean_division_equations; lia.

Lemma b64encode_length_le (n : nat) (bs : list byte) :
  (List.length bs <= n)%nat ->
  List.length (b64encode bs) = (4 * ((List.length bs + 2) / 3))%nat.
Proof.
  revert bs; induction n as [|n IH]; intros bs Hn.
  - destruct bs; [reflexivity | simpl in Hn; lia].
  - destruct bs as [|x [|y [|z rest]]]; try reflexivity.
    cbn [b64encode List.length].
    rewrite IH by (simpl in Hn; lia).
    replace (S (S (S (List.length rest))) + 2)%nat
      with (List.length rest + 2 + 1 * 3)%nat by lia.
    rewrite Nat.div_add by lia; lia.
Qed.

Lemma b64encode_length (bs : list byte) :
  List.length (b64encode bs) = (4 * ((List.length bs + 2) / 3))%nat.
Proof. exact (b64encode_length_le _ bs (Nat.le_refl _)). Qed.

Lemma sextet_char_b64 (n : N) :
  (n < 64)%N -> is_b64_char (code (sextet_char n)) = true.
Proof. intros H; unfold is_b64_char; now rewrite char_sextet_char. Qed.

Lemma b64encode_alphabet_le (n : nat) (bs : list byte) :
  (List.length bs <= n)%nat ->
  forallb is_b64_char (decode_ascii (b64encode bs)) = true.
Proof.
  revert bs; induction n as [|n IH]; intros bs Hn.
  - destruct bs; [reflexivity | simpl in Hn; lia].
  - destruct bs as [|x [|y [|z rest]]]; [reflexivity| | |];
      pose proof (byte_bound x) as Hx.
    + cbn [b64encode decode_ascii map forallb].
      rewrite !sextet_char_b64 by divmod; reflexivity.
    + pose proof (byte_bound y) as Hy.
      cbn [b64encode decode_ascii map forallb].
      rewrite !sextet_char_b64 by divmod; reflexivity.
    + pose proof (byte_bound y) as Hy; pose proof (byte_bound z) as Hz.
      cbn [b64encode decode_ascii map forallb].
      fold (decode_ascii (b64encode rest)).
      rewrite !sextet_char_b64 by divmod.
      rewrite IH by (simpl in Hn; lia); reflexivity.
Qed.

Lemma b64encode_alphabet (bs : list byte) :
  forallb is_b64_char (decode_ascii (b64encode bs)) = true.
Proof. exact (b64encode_alphabet_le _ bs (Nat.le_refl _)). Qed.

(** The characters of the alphabet are printable ASCII and need no
    escaping inside a JSON string. *)
Lemma b64_char_plain (c : Z) :
  is_b64_char c = true -> (43 <= c <= 122)%Z /\ c <> 92%Z.
Proof.
  unfold is_b64_char, char_sextet.
  repeat match goal with
         | |- context [(?a <=? ?b)%Z] => destruct (Z.leb_spec a b)
         | |- context [(?a =? ?b)%Z] => destruct (Z.eqb_spec a b)
         end; simpl; intros; try discriminate; lia.
Qed.

Lemma image_url_value (w : World) (path : pystr) (b : list byte) :
  file_bytes w path = Some b ->
  _image_to_data_url w path
  = ([EvRead path], Return (data_url_prefix ++ decode_ascii (b64encode b))).
Proof.
  intros H; unfold _image_to_data_url, read_file; now rewrite H.
Qed.

End EncoderFacts.

(** X13: the URL is 23 characters of tag followed by four characters for
    every three bytes of the file, the last group counted in full; an
    empty file gives the bare tag. *)
Theorem data_url_length (w : World) (path : pystr) (b : list byte) :
  file_bytes w path = Some b ->
  exists url,
    result (_image_to_data_url w path) = Return url
    /\ List.length url = (23 + 4 * ((List.length b + 2) / 3))%nat
    /\ (b = [] -> url = lit "data:image/jpeg;base64,").
Proof.
  intros H; rewrite (image_url_value w path b H).
  eexists; split; [reflexivity|]; split.
  - unfold decode_ascii.
    now rewrite length_app, length_map, b64encode_length.
  - now intros ->.
Qed.

Lemma data_url_length_witness :
  file_bytes sample_world (lit "worksheet1.png") = Some png_magic
  /\ exists url,
       result (_image_to_data_url sample_world (lit "worksheet1.png"))
       = Return url
       /\ List.length url = 35%nat
       /\ (png_magic = [] -> url = lit "data:image/jpeg;base64,").
Proof.
  split; [reflexivity|].
  exact (data_url_length sample_world (lit "worksheet1.png") png_magic
           eq_refl).
Defined.

(** X14: the payload of the URL is written in the Base64 alphabet and the
    padding character only, so the whole URL is printable ASCII without
    spaces, quotes or backslashes. *)
Theorem data_url_is_plain_text (w : World) (path : pystr) (b : list byte) :
  file_bytes w path = Some b ->
  exists payload,
    result (_image_to_data_url w path)
    = Return (lit "data:image/jpeg;base64," ++ payload)
    /\ forallb is_b64_char payload = true
    /\ Forall (fun c => 32 < c < 127 /\ c <> 34 /\ c <> 92)
              (lit "data:image/jpeg;base64," ++ payload).
Proof.
  intros H; rewrite (image_url_value w path b H).
  exists (decode_ascii (b64encode b)).
  split; [reflexivity|].
  split; [apply b64encode_alphabet|].
  apply Forall_app; split.
  - repeat constructor; lia || discriminate.
  - apply Forall_forall; intros c Hc.
    pose proof (b64encode_alphabet b) as Hall.
    rewrite forallb_forall in Hall.
    destruct (b64_char_plain c (Hall c Hc)); lia.
Qed.

Lemma data_url_is_plain_text_witness :
  file_bytes sample_world (lit "worksheet1.png") = Some png_magic
  /\ exists payload,
       result (_image_to_data_url sample_world (lit "worksheet1.png"))
       = Return (lit "data:image/jpeg;base64," ++ payload)
       /\ forallb is_b64_char payload = true
       /\ Forall (fun c => 32 < c < 127 /\ c <> 34 /\ c <> 92)
                 (lit "data:image/jpeg;base64," ++ payload).
Proof.
  split; [reflexivity|].
  exact (data_url_is_plain_text sample_world (lit "worksheet1.png")
           png_magic eq_refl).
Defined.

(** X15: the encoding is injective: two readable files, in whatever
    worlds and under whatever paths, get the same URL only when they hold
    the same bytes. *)
Theorem data_url_injective (w w' : World) (path path' : pystr)
    (b b' : list byte) :
  file_bytes w path = Some b ->
  file_bytes w' path' = Some b' ->
  result (_image_to_data_url w path) = result (_image_to_data_url w' path') ->
  b = b'.
Proof.
  intros H H'.
  rewrite (image_url_value w path b H), (image_url_value w' path' b' H').
  cbn [result snd]; intros E.
  injection E as E.
  pose proof (b64_roundtrip b) as R.
  rewrite E, b64_roundtrip in R; now injection R.
Qed.

Lemma data_url_injective_witness :
  result (_image_to_data_url sample_world (lit "worksheet1.png"))
  = result (_image_to_data_url bare_world (lit "worksheet1.png"))
  /\ png_magic = png_magic.
Proof.
  split; [reflexivity|].
  exact (data_url_injective sample_world bare_world (lit "worksheet1.png")
           (lit "worksheet1.png") png_magic png_magic
           eq_refl eq_refl eq_refl).
Defined.

(* ================================================================== *)
(** ** Reading back what the script prints *)

Section ScanFacts.

Lemma lex_run_app (l : bool) (x y : pystr) (st : lex_state) :
  lex_run l st (x ++ y)
  = match lex_run l st x with
    | Some (st', out) =>
        match lex_run l st' y with
        | Some (st'', out') => Some (st'', out ++ out')
        | None => None
        end
    | None => None
    end.
Proof.
  revert st; induction x as [|c x IH]; intros st; simpl.
  - now destruct (lex_run l st y) as [[? ?]|].
  - destruct (lex_step l st c) as [[st1 o1]|]; [|reflexivity].
    rewrite IH.
    destruct (lex_run l st1 x) as [[st2 o2]|]; [|reflexivity].
    destruct (lex_run l st2 y) as [[st3 o3]|]; [|reflexivity].
    now rewrite app_assoc.
Qed.

Lemma lex_of_run (l : bool) (x : pystr) (st : lex_state) (out : list token) :
  lex_run l st x = Some (LIdle, out) -> lex l st x = Some out.
Proof.
  revert st out; induction x as [|c x IH]; intros st out; simpl.
  - intros H; injection H as -> <-; reflexivity.
  - destruct (lex_step l st c) as [[st1 o1]|]; [|discriminate].
    destruct (lex_run l st1 x) as [[st2 o2]|] eqn:E; [|discriminate].
    intros H; injection H as -> <-.
    now rewrite (IH _ _ E).
Qed.

Lemma scans_app st x st1 o1 y st2 o2 :
  scans st x st1 o1 -> scans st1 y st2 o2 ->
  scans st (x ++ y) st2 (o1 ++ o2).
Proof. intros Hx Hy l; now rewrite lex_run_app, Hx, Hy. Qed.

Lemma scans_indent (indent level : nat) :
  scans LIdle (newline_indent indent level) LIdle [].
Proof.
  intros l; unfold newline_indent.
  generalize (indent * level)%nat as n; intros n.
  cbn [lex_run lex_step idle is_ws Z.eqb Pos.eqb orb].
  induction n as [|n IH]; [reflexivity|].
  cbn [repeat lex_run lex_step idle is_ws Z.eqb Pos.eqb orb].
  destruct (lex_run l LIdle (repeat 32 n)) as [[? ?]|]; [|discriminate].
  injection IH as -> ->; reflexivity.
Qed.

(** One character of a string, as the encoder writes it, is read back as
    that character. *)
Lemma scans_escape (c : Z) (acc : pystr) :
  0 <= c -> scans (LStr acc false) (escape_out c) (LStr (c :: acc) false) [].
Proof.
  intros Hc l.
  destruct (Z.ltb_spec c 32) as [Hlt | Hge].
  - assert (Hk : exists k, c = Z.of_nat k /\ (k < 32)%nat)
      by (exists (Z.to_nat c); lia).
    destruct Hk as (k & -> & Hk).
    do 32 (destruct k as [|k]; [reflexivity|]).
    lia.
  - destruct (Z.eqb_spec c 34) as [-> | H34]; [reflexivity|].
    destruct (Z.eqb_spec c 92) as [-> | H92]; [reflexivity|].
    unfold escape_out.
    repeat match goal with
           | |- context [c =? ?n] =>
               replace (c =? n) with false by (symmetry; apply Z.eqb_neq; lia)
           end.
    replace (c <? 32) with false by (symmetry; apply Z.ltb_ge; lia).
    cbn [lex_run lex_step].
    repeat match goal with
           | |- context [c =? ?n] =>
               replace (c =? n) with false by (symmetry; apply Z.eqb_neq; lia)
           end.
    replace (c <? 32) with false by (symmetry; apply Z.ltb_ge; lia).
    reflexivity.
Qed.

Lemma scans_body (s acc : pystr) :
  is_text s = true ->
  scans (LStr acc false) (flat_map escape_out s) (LStr (rev s ++ acc) false) [].
Proof.
  revert acc; induction s as [|c s IH]; intros acc H; [intros l; reflexivity|].
  cbn [is_text forallb] in H; apply andb_prop in H as [Hc Hs].
  cbn [flat_map rev]; rewrite <- app_assoc.
  change (@nil token) with (@nil token ++ []).
  eapply scans_app; [apply scans_escape; lia|].
  now apply IH.
Qed.

(** An encoded string is read back as one string token. *)
Lemma scans_str (s : pystr) :
  is_text s = true -> scans LIdle (encode_str s) LIdle [TScalar (PStr s)].
Proof.
  intros H; unfold encode_str.
  change [TScalar (PStr s)] with ([] ++ [] ++ [TScalar (PStr s)]).
  eapply scans_app; [intros l; reflexivity|].
  eapply scans_app; [now apply scans_body|].
  intros l; cbn [lex_run lex_step Z.eqb Pos.eqb].
  now rewrite !app_nil_r, rev_involutive.
Qed.

End ScanFacts.

Section EncodeFacts.
Context {I : Interp}.

Lemma scans_join (sep : pystr) (sept : list token)
    (parts : list pystr) (toks : list (list token)) :
  scans LIdle sep LIdle sept ->
  Forall2 (fun p t => scans LIdle p LIdle t) parts toks ->
  scans LIdle (join sep parts) LIdle (join_tokens sept toks).
Proof.
  intros Hsep H; induction H as [|p t parts toks Hp Hrest IH].
  - intros l; reflexivity.
  - destruct Hrest as [|p' t' parts toks Hp' Hrest]; [exact Hp|].
    cbn [join join_tokens] in *.
    eapply scans_app; [exact Hp|].
    eapply scans_app; [exact Hsep | exact IH].
Qed.

Lemma scans_separator (indent level : nat) :
  scans LIdle (lit "," ++ newline_indent indent level) LIdle [TComma].
Proof.
  change [TComma] with ([TComma] ++ []).
  eapply scans_app; [intros l; reflexivity | apply scans_indent].
Qed.

Lemma scans_item (indent level : nat) (kv : pystr * pyval) :
  is_text (fst kv)
  && match snd kv with PStr s => is_text s | _ => false end = true ->
  scans LIdle
        (encode_str (fst kv) ++ lit ": " ++ encode indent level (snd kv))
        LIdle (item_tokens kv).
Proof.
  destruct kv as [k v]; cbn [fst snd].
  intros H; apply andb_prop in H as [Hk Hv].
  destruct v; try discriminate.
  change (item_tokens (k, PStr s))
    with ([TScalar (PStr k)] ++ [TColon] ++ [TScalar (PStr s)]).
  eapply scans_app; [now apply scans_str|].
  eapply scans_app; [intros l; reflexivity|].
  cbn [encode]; now apply scans_str.
Qed.

Lemma encode_list (indent level : nat) (x : pyval) (l : list pyval) :
  encode indent level (PList (x :: l))
  = lit "[" ++ newline_indent indent (S level)
    ++ join (lit "," ++ newline_indent indent (S level))
            (map (encode indent (S level)) (x :: l))
    ++ newline_indent indent level ++ lit "]".
Proof. reflexivity. Qed.

(** An encoded dict of strings is read back as its tokens. *)
Lemma scans_dict (indent level : nat) (d : dict) :
  text_record d = true ->
  scans LIdle (encode indent level (PDict d)) LIdle (dict_tokens d).
Proof.
  intros H.
  destruct d as [|kv d]; [intros l; reflexivity|].
  cbn [encode]; unfold dict_tokens.
  change ([TLBrace] ++ join_tokens [TComma] (map item_tokens (kv :: d))
            ++ [TRBrace])
    with ([TLBrace] ++ [] ++ join_tokens [TComma] (map item_tokens (kv :: d))
            ++ [] ++ [TRBrace]).
  eapply scans_app; [intros l; reflexivity|].
  eapply scans_app; [apply scans_indent|].
  eapply scans_app;
    [|eapply scans_app; [apply scans_indent | intros l; reflexivity]].
  apply scans_join; [apply scans_separator|].
  unfold text_record in H; rewrite forallb_forall in H.
  generalize (kv :: d) H; clear; intros d H.
  induction d as [|kv d IH]; [constructor|].
  cbn [map]; constructor.
  - apply scans_item, H; now left.
  - apply IH; intros x Hx; apply H; now right.
Qed.

(** The text [json.dumps] writes for a list of dicts of strings is read
    back as the tokens of the list. *)
Lemma scans_dicts (indent : nat) (ds : list dict) :
  forallb text_record ds = true ->
  scans LIdle (json_dumps indent (PList (map PDict ds))) LIdle
        (dicts_tokens ds).
Proof.
  intros H; unfold json_dumps.
  destruct ds as [|d ds]; [intros l; reflexivity|].
  rewrite (encode_list indent 0 (PDict d) (map PDict ds) : encode _ _ (PList (map PDict (d :: ds))) = _).
  unfold dicts_tokens.
  change ([TLBracket] ++ join_tokens [TComma] (map dict_tokens (d :: ds))
            ++ [TRBracket])
    with ([TLBracket] ++ [] ++ join_tokens [TComma] (map dict_tokens (d :: ds))
            ++ [] ++ [TRBracket]).
  eapply scans_app; [intros l; reflexivity|].
  eapply scans_app; [apply scans_indent|].
  eapply scans_app;
    [|eapply scans_app; [apply scans_indent | intros l; reflexivity]].
  apply scans_join; [apply scans_separator|].
  rewrite forallb_forall in H.
  change (PDict d :: map PDict ds) with (map PDict (d :: ds)).
  generalize (d :: ds) H; clear; intros ds H.
  induction ds as [|d ds IH]; [constructor|].
  cbn [map]; constructor.
  - apply scans_dict, H; now left.
  - apply IH; intros x Hx; apply H; now right.
Qed.

End EncodeFacts.

Section ParseFacts.

Lemma parse_run_app (x y : list token) (ps : pstate) :
  parse_run ps (x ++ y)
  = match parse_run ps x with
    | Some ps' => parse_run ps' y
    | None => None
    end.
Proof.
  revert ps; induction x as [|t x IH]; intros ps; simpl; [reflexivity|].
  destruct (parse_step ps t); [apply IH | reflexivity].
Qed.

Lemma parse_of_run (ts : list token) (ps : pstate) (v : pyval) :
  parse_run ps ts = Some ([], XEnd v) -> parse ps ts = Some v.
Proof.
  revert ps; induction ts as [|t ts IH]; intros ps; simpl.
  - now intros H; injection H as ->.
  - destruct (parse_step ps t); [apply IH | discriminate].
Qed.

(** The tokens of a record, met where a list expects an element, add the
    record to the list under construction. *)
Lemma parse_record (qn qtext sans work : pystr)
    (acc : list pyval) (st : list frame) (x : expect) :
  x = XFirst \/ x = XValue ->
  parse_run (FList acc :: st, x) (dict_tokens (record qn qtext sans work))
  = Some (FList (PDict (record qn qtext sans work) :: acc) :: st, XSep).
Proof. intros [-> | ->]; reflexivity. Qed.

Lemma parse_records (recs : list dict) :
  Forall is_record recs -> recs <> [] ->
  forall acc st x,
    x = XFirst \/ x = XValue ->
    parse_run (FList acc :: st, x)
              (join_tokens [TComma] (map dict_tokens recs))
    = Some (FList (rev (map PDict recs) ++ acc) :: st, XSep).
Proof.
  induction 1 as [|rec recs (qn & qtext & sans & work & ->) Hrest IH];
    [congruence|].
  intros _ acc st x Hx.
  destruct recs as [|rec' recs].
  - cbn [map join_tokens rev app]; now apply parse_record.
  - change (join_tokens [TComma]
              (map dict_tokens (record qn qtext sans work :: rec' :: recs)))
      with (dict_tokens (record qn qtext sans work)
            ++ [TComma]
            ++ join_tokens [TComma] (map dict_tokens (rec' :: recs))).
    rewrite parse_run_app, (parse_record _ _ _ _ acc st x Hx).
    rewrite parse_run_app; cbn [parse_run parse_step].
    rewrite IH by (discriminate || now right).
    cbn [map rev]; now rewrite <- !app_assoc.
Qed.

(** The tokens of a list of records make up that list. *)
Lemma parse_dicts (recs : list dict) :
  Forall is_record recs ->
  parse ([], XValue) (dicts_tokens recs) = Some (PList (map PDict recs)).
Proof.
  intros H; apply parse_of_run; unfold dicts_tokens.
  destruct recs as [|rec recs]; [reflexivity|].
  rewrite parse_run_app; cbn [parse_run parse_step wants_value].
  rewrite parse_run_app, (parse_records _ H) by (discriminate || now left).
  cbn [parse_run parse_step deliver].
  now rewrite app_nil_r, rev_involutive.
Qed.

End ParseFacts.

Section RereadFacts.
Context {I : Interp}.

Lemma loads_dumps_records (indent : nat) (recs : list dict) :
  Forall is_record recs ->
  forallb text_record recs = true ->
  json_loads (json_dumps indent (PList (map PDict recs)))
  = Some (PList (map PDict recs)).
Proof.
  intros Hrec Htext; unfold json_loads, decode.
  rewrite (lex_of_run true _ LIdle (dicts_tokens recs))
    by now apply scans_dicts.
  now apply parse_dicts.
Qed.

(** The text written for a list starts and ends with a bracket, so
    trimming leaves it as it is. *)
Lemma dumps_list_trimmed (indent : nat) (l : list pyval) :
  strip (json_dumps indent (PList l)) = json_dumps indent (PList l).
Proof.
  apply strip_of_trimmed; unfold json_dumps.
  destruct l as [|x l]; [reflexivity|].
  rewrite encode_list; unfold trimmed.
  apply andb_true_intro; split; [reflexivity|].
  now rewrite !app_assoc, rev_app_distr.
Qed.

End RereadFacts.

Section ScriptFacts.
Context {I : Interp}.

Lemma loop_records_shape (items : list pyval) :
  Forall is_record (fold_left loop_body items []).
Proof.
  eapply Forall_impl; [|apply loop_records].
  intros rec [Hc _].
  destruct (canonical_record rec Hc) as (qn & qtext & sans & work & -> & _).
  now exists qn, qtext, sans, work.
Qed.


End ScriptFacts.

(** X16: the records the loop returns, written out as the script writes
    them, read back as they were: the decoder returns the same list of
    objects for the printed text, and the parser returns the same records
    for it.  The fields are taken to hold code points. *)
Theorem printed_records_read_back {I : Interp} (items : list pyval) :
  let recs := fold_left loop_body items [] in
  let printed := json_dumps 2 (PList (map PDict recs)) in
  forallb text_record recs = true ->
  json_loads printed = Some (PList (map PDict recs))
  /\ parse_response printed = ([], Return recs).
Proof.
  intros recs printed Htext.
  assert (Hload : json_loads printed = Some (PList (map PDict recs)))
    by (apply loads_dumps_records; [apply loop_records_shape | exact Htext]).
  split; [exact Hload|].
  rewrite (parse_response_list printed (map PDict recs))
    by (unfold printed; now rewrite dumps_list_trimmed).
  do 2 f_equal; unfold recs; apply loop_fixes_records, loop_records.
Qed.

Lemma printed_records_read_back_witness :
  let recs := @fold_left _ _ (@loop_body sample_interp) escaped_items [] in
  let printed := @json_dumps sample_interp 2 (PList (map PDict recs)) in
  forallb text_record recs = true
  /\ recs = [record (lit "1") (qlit "say `hi`\n") [120; 9; 10; 1; 120] [233]]
  /\ json_loads printed = Some (PList (map PDict recs))
  /\ @parse_response sample_interp printed = ([], Return recs).
Proof.
  intros recs printed.
  split; [reflexivity|].
  split; [reflexivity|].
  exact (@printed_records_read_back sample_interp escaped_items eq_refl).
Defined.

